(** * mmake: the build driver of a minimal make

    A shallow embedding of [mmake.c]: the recursive build driver
    [run_makefile], the staleness oracle [check_file], the command
    executor [run_cmd] and the part of [main] that walks the requested
    targets.  The parser ([parser.h]) and the operating system are
    interfaces; the program is a function of them.  The program's state is
    threaded through a small monad whose computations return, call [exit],
    or recurse deeper than a given bound (the recursion of [run_makefile]
    has no cycle check, so the embedding takes the depth of the stack as
    fuel). *)

From Stdlib Require Import ZArith List String Ascii Bool Lia.
Import ListNotations.
Local Open Scope Z_scope.

(** ** Interfaces *)

(** The parser interface of [parser.h], as [mmake.c] uses it.  A pointer
    result that the program tests against [NULL] is an [option]; a
    [NULL]-terminated array is the list of its entries.  [rule_prereq] is
    tested against [NULL] by [run_makefile], so it is an option of a list;
    [rule_cmd] is indexed without a test, so it is a list. *)
Class Parser (makefile rule : Type) : Type := {
  makefile_default_target : makefile -> string;
  makefile_rule : makefile -> string -> option rule;
  rule_prereq : rule -> option (list string);
  rule_cmd : rule -> list string
}.

(** What [fork], [execvp] and [waitpid] of one [run_cmd] call amount to,
    seen from the parent.  When [execvp] fails the child calls [perror] and
    then [exit(errno)]: [errno] is the one [execvp] set, [exit_errno] the
    value the child finds in [errno] after [perror]. *)
Inductive spawn_result : Type :=
| ForkFailed (errno : Z)     (* fork() returned -1 *)
| WaitFailed (errno : Z)     (* waitpid() returned -1 *)
| ExecFailed (errno exit_errno : Z)  (* in the child, execvp() returned -1 *)
| Terminated (status : Z).   (* the program ran; waitpid() stored status *)

(** The system calls of [mmake.c].  [spawn] receives whether descriptor 1
    is still open in the parent, since the child inherits the parent's
    descriptors, the argument vector, and returns the world the child
    leaves behind.  The program reads [errno] after it has written its
    message: [errno_after_perror w e] and [errno_after_fprintf w e] are the
    values it then finds, when [errno] was [e] before [perror], or before
    [fprintf(stderr, ...)], was called. *)
Class OS (world : Type) : Type := {
  access : world -> string -> bool;
  st_mtime : world -> string -> Z;
  spawn : bool -> world -> list string -> spawn_result * world;
  strerror : Z -> string;
  errno_after_perror : world -> Z -> Z;
  errno_after_fprintf : world -> Z -> Z
}.

(** ** Constants and macros of the C library *)

Definition EXIT_FAILURE : Z := 1.

(** [<sys/wait.h>]: a child exited normally when the low seven bits of
    the status are clear; its exit status is bits 8..15. *)
Definition WIFEXITED (status : Z) : bool := Z.land status 127 =? 0.
Definition WEXITSTATUS (status : Z) : Z := Z.shiftr (Z.land status 65280) 8.

(** The status word [waitpid] stores for a child that called [exit code]. *)
Definition W_EXITCODE (code : Z) : Z := Z.shiftl (Z.land code 255) 8.

(** [difftime] on two [time_t] values.  [check_file] only asks whether the
    result is negative or zero, which for the C library's [double] is the
    case exactly when the integer difference is. *)
Definition difftime (time1 time0 : Z) : Z := time1 - time0.

Definition nl : string := String (ascii_of_nat 10) EmptyString.

(** ** Program state *)

Record start_args : Type := mk_start_args {
  arg_b : Z;
  arg_s : Z;
  n_tar : Z;
  c_tar : Z;
  exitcode : Z;
  makefile_file : option string;
  target : list string
}.

Definition init_struct : start_args :=
  {| arg_b := 0; arg_s := 0; n_tar := 50; c_tar := 0; exitcode := 0;
     makefile_file := None; target := [] |}.

Definition set_exitcode (code : Z) (s : start_args) : start_args :=
  {| arg_b := arg_b s; arg_s := arg_s s; n_tar := n_tar s; c_tar := c_tar s;
     exitcode := code; makefile_file := makefile_file s; target := target s |}.

Definition set_arg_s (v : Z) (s : start_args) : start_args :=
  {| arg_b := arg_b s; arg_s := v; n_tar := n_tar s; c_tar := c_tar s;
     exitcode := exitcode s; makefile_file := makefile_file s;
     target := target s |}.

(** Ghost events, kept to state properties of a run: a verdict of the
    staleness oracle, and a [fork] by the command executor. *)
Inductive event : Type :=
| EvCheck (current prereq : string) (verdict : bool)
| EvRun (argv : list string) (r : spawn_result).

Section Mmake.

Context {makefile rule world : Type} {PR : Parser makefile rule} {SYS : OS world}.

(** The process: the [start_args] structure, the outside world, the two
    output streams and the ghost trace. *)
Record proc : Type := mk_proc {
  args : start_args;
  sys : world;
  stdout_open : bool;
  out : list string;
  err : list string;
  trace : list event
}.

Inductive outcome (A : Type) : Type :=
| Ret (a : A) (p : proc)        (* the call returned *)
| Exit (code : Z) (p : proc)    (* exit(code) was called *)
| Overflow.                     (* recursion deeper than the fuel *)
Arguments Ret {A} a p.
Arguments Exit {A} code p.
Arguments Overflow {A}.

Definition M (A : Type) : Type := proc -> outcome A.

Definition ret {A} (a : A) : M A := fun p => Ret a p.

Definition bind {A B} (c : M A) (k : A -> M B) : M B :=
  fun p => match c p with
           | Ret a p' => k a p'
           | Exit code p' => Exit code p'
           | Overflow => Overflow
           end.

Notation "x <- c ;; k" := (bind c (fun x => k))
  (at level 61, c at next level, right associativity).
Notation "c ;; k" := (bind c (fun _ => k))
  (at level 61, right associativity).

Definition exit {A} (code : Z) : M A := fun p => Exit code p.

Definition gets {A} (f : proc -> A) : M A := fun p => Ret (f p) p.

Definition modify (f : proc -> proc) : M unit := fun p => Ret tt (f p).

Definition with_args (f : start_args -> start_args) (p : proc) : proc :=
  mk_proc (f (args p)) (sys p) (stdout_open p) (out p) (err p) (trace p).

Definition with_sys (w : world) (p : proc) : proc :=
  mk_proc (args p) w (stdout_open p) (out p) (err p) (trace p).

Definition with_event (e : event) (p : proc) : proc :=
  mk_proc (args p) (sys p) (stdout_open p) (out p) (err p) (trace p ++ [e]).

Definition with_out (lines : list string) (p : proc) : proc :=
  mk_proc (args p) (sys p) (stdout_open p) (out p ++ lines) (err p) (trace p).

Definition with_err (lines : list string) (p : proc) : proc :=
  mk_proc (args p) (sys p) (stdout_open p) (out p) (err p ++ lines) (trace p).

(** [printf]: lost once [stdout] has been closed. *)
Definition printf (line : string) : M unit :=
  modify (fun p => if stdout_open p then with_out [line] p else p).

(** [fprintf(stderr, ...)]. *)
Definition eprintf (line : string) : M unit :=
  modify (with_err [line]).

(** [perror(s)] with [errno] as given. *)
Definition perror_line (s : string) (errno : Z) : string :=
  (s ++ ": " ++ strerror errno ++ nl)%string.

Definition perror (s : string) (errno : Z) : M unit :=
  eprintf (perror_line s errno).

(** [fclose(stdout)]. *)
Definition fclose_stdout : M unit :=
  modify (fun p => mk_proc (args p) (sys p) false (out p) (err p) (trace p)).

Fixpoint for_each (f : string -> M unit) (names : list string) : M unit :=
  match names with
  | [] => ret tt
  | x :: rest => f x ;; for_each f rest
  end.

(** ** The staleness oracle (mmake.c, check_file, lines 270-314) *)

Definition no_rule_line (prereq : string) : string :=
  ("mmake: No rule to make target '" ++ prereq ++ "'" ++ nl)%string.

Definition check_file (current prereq : string) (m : makefile) : M bool :=
  fun p =>
    let w := sys p in
    if negb (access w prereq) then
      match makefile_rule m prereq with
      | None => (eprintf (no_rule_line prereq) ;; exit EXIT_FAILURE) p
      | Some _ => Ret true p
      end
    else if negb (access w current) then Ret true p
    else
      let time_tar := st_mtime w current in
      let time_pre := st_mtime w prereq in
      if (difftime time_pre time_tar <? 0) || (difftime time_pre time_tar =? 0)
      then Ret false p
      else Ret true p.

(** ** The command executor (mmake.c, run_cmd, lines 322-373) *)

(** The echo loop: every word followed by a blank, the last by a newline. *)
Fixpoint print_cmd (exec_cmd : list string) : M unit :=
  match exec_cmd with
  | [] => ret tt
  | [x] => printf (x ++ nl)%string
  | x :: rest => printf (x ++ " ")%string ;; print_cmd rest
  end.

(** The parent after [waitpid]. *)
Definition record_status (status : Z) : M unit :=
  if WIFEXITED status
  then modify (with_args (set_exitcode (WEXITSTATUS status)))
  else ret tt.

(** [fork] is called whatever the command.  The message of [perror] is
    that of the [errno] the failed call set; the argument of [exit] is
    [errno] as read after [perror].  The branch of the child is part of the
    function: when [execvp] fails the child writes its message to the
    stderr it shares with the parent and exits with its [errno], which the
    parent then finds in the status of [waitpid]. *)
Definition run_cmd (tar_rule : rule) : M unit :=
  let exec_cmd := rule_cmd tar_rule in
  print_cmd exec_cmd ;;
  open <- gets stdout_open ;;
  w <- gets sys ;;
  let (r, w') := spawn open w exec_cmd in
  modify (with_sys w') ;;
  modify (with_event (EvRun exec_cmd r)) ;;
  match r with
  | ForkFailed e => perror (strerror e) e ;; exit (errno_after_perror w' e)
  | WaitFailed e => perror (strerror e) e ;; exit (errno_after_perror w' e)
  | ExecFailed e exit_errno =>
      perror (strerror e) e ;; record_status (W_EXITCODE exit_errno)
  | Terminated status => record_status status
  end.

(** ** The build driver (mmake.c, run_makefile, lines 210-258) *)

(** The second loop of [run_makefile]: one oracle call per prerequisite,
    one command per verdict "newer". *)
Fixpoint check_prereqs (m : makefile) (target : string) (tar_rule : rule)
         (tar_prereq : list string) : M unit :=
  match tar_prereq with
  | [] => ret tt
  | pre :: rest =>
      newer <- check_file target pre m ;;
      modify (with_event (EvCheck target pre newer)) ;;
      (if newer then run_cmd tar_rule else ret tt) ;;
      check_prereqs m target tar_rule rest
  end.

Fixpoint run_makefile (fuel : nat) (m : makefile) (target : string) : M unit :=
  match fuel with
  | O => fun _ => Overflow
  | S fuel' =>
      match makefile_rule m target with
      | None => ret tt
      | Some tar_rule =>
          match rule_prereq tar_rule with
          | Some tar_prereq =>
              for_each (run_makefile fuel' m) tar_prereq ;;
              b <- gets (fun p => arg_b (args p)) ;;
              if b =? 1
              then run_cmd tar_rule
              else check_prereqs m target tar_rule tar_prereq
          | None => run_cmd tar_rule
          end
      end
  end.

(** ** main (mmake.c, lines 46-77) *)

(** [main] from the point where [check_start_args] has filled [sa] and
    [choose_makefile] has returned the parsed makefile [m]; a makefile that
    cannot be opened or parsed ends the program before any target is
    looked at. *)

Definition boot (sa : start_args) (w : world) : proc :=
  mk_proc sa w true [] [] [].

Definition main_targets (fuel : nat) (m : makefile) : M unit :=
  c <- gets (fun p => c_tar (args p)) ;;
  if c =? 0
  then run_makefile fuel m (makefile_default_target m)
  else
    names <- gets (fun p => target (args p)) ;;
    for_each (run_makefile fuel m) names.

Definition main (fuel : nat) (m : makefile) (sa : start_args) (w : world)
  : outcome unit :=
  ((if arg_s sa =? 1 then fclose_stdout else ret tt) ;;
   main_targets fuel m ;;
   code <- gets (fun p => exitcode (args p)) ;;
   exit code) (boot sa w).

(** ** Observations on a run *)

(** The process a call stopped in, by return or by [exit]. *)
Definition final {A} (o : outcome A) : option proc :=
  match o with
  | Ret _ p => Some p
  | Exit _ p => Some p
  | Overflow => None
  end.

(** What the echo loop of [run_cmd] writes. *)
Fixpoint echo_words (exec_cmd : list string) : list string :=
  match exec_cmd with
  | [] => []
  | [x] => [(x ++ nl)%string]
  | x :: rest => (x ++ " ")%string :: echo_words rest
  end.

Definition echo (exec_cmd : list string) (p : proc) : proc :=
  if stdout_open p then with_out (echo_words exec_cmd) p else p.

(** The process right after the child of [run_cmd] has been dealt with by
    the system, before the parent looks at the result. *)
Definition forked (exec_cmd : list string) (p : proc) : proc :=
  let (r, w') := spawn (stdout_open p) (sys p) exec_cmd in
  with_event (EvRun exec_cmd r) (with_sys w' (echo exec_cmd p)).

(** The result [run_cmd] gets from the system in process [p]. *)
Definition spawned (exec_cmd : list string) (p : proc) : spawn_result :=
  fst (spawn (stdout_open p) (sys p) exec_cmd).

(** The process after the parent has looked at the status of a child it
    waited for. *)
Definition after_wait (status : Z) (p : proc) : proc :=
  if WIFEXITED status
  then with_args (set_exitcode (WEXITSTATUS status)) p
  else p.

(** A specification of a computation: from a process in [P] it returns
    in [Q] or exits in [E]. *)
Definition triple {A} (P : proc -> Prop) (c : M A)
           (Q : A -> proc -> Prop) (E : Z -> proc -> Prop) : Prop :=
  forall p, P p ->
    match c p with
    | Ret a p' => Q a p'
    | Exit code p' => E code p'
    | Overflow => True
    end.

(** Two processes that agree on everything but [stdout] and the quiet
    flag. *)
Definition quiet_eq (p1 p2 : proc) : Prop :=
  set_arg_s 0 (args p1) = set_arg_s 0 (args p2)
  /\ sys p1 = sys p2 /\ err p1 = err p2 /\ trace p1 = trace p2.

(** Two runs that end the same way, in processes that agree on everything
    but [stdout] and the quiet flag. *)
Definition same_run {A} (o1 o2 : outcome A) : Prop :=
  match o1, o2 with
  | Ret a1 p1, Ret a2 p2 => a1 = a2 /\ quiet_eq p1 p2
  | Exit c1 p1, Exit c2 p2 => c1 = c2 /\ quiet_eq p1 p2
  | Overflow, Overflow => True
  | _, _ => False
  end.

(** A computation that does not tell such processes apart. *)
Definition blind {A} (c : M A) : Prop :=
  forall p1 p2, quiet_eq p1 p2 -> same_run (c p1) (c p2).

(** The exit code of a run that ended by [exit]. *)
Definition exit_code {A} (o : outcome A) : option Z :=
  match o with
  | Exit code _ => Some code
  | _ => None
  end.

(** The process [main] walks the targets from. *)
Definition started (sa : start_args) (w : world) : proc :=
  mk_proc sa w (negb (arg_s sa =? 1)) [] [] [].

(** One pass of the staleness loop of [run_makefile] that returns, told
    step by step: from the process [p], over the prerequisites that are
    left, with so many runs of the command, to the process [q].  Every
    verdict is the answer of [check_file] in the process as the runs
    before it left it; the command is run after a verdict "newer", and
    after no other. *)
Inductive stale_pass (m : makefile) (current : string) (tar_rule : rule)
  : list string -> proc -> nat -> proc -> Prop :=
| pass_done p : stale_pass m current tar_rule [] p 0 p
| pass_fresh pre rest p k q :
    check_file current pre m p = Ret false p ->
    stale_pass m current tar_rule rest
               (with_event (EvCheck current pre false) p) k q ->
    stale_pass m current tar_rule (pre :: rest) p k q
| pass_stale pre rest p p1 k q :
    check_file current pre m p = Ret true p ->
    run_cmd tar_rule (with_event (EvCheck current pre true) p) = Ret tt p1 ->
    stale_pass m current tar_rule rest p1 k q ->
    stale_pass m current tar_rule (pre :: rest) p (S k) q.



End Mmake.

(** The status word the parent receives, if it receives one. *)
Definition child_status (r : spawn_result) : option Z :=
  match r with
  | Terminated status => Some status
  | ExecFailed _ exit_errno => Some (W_EXITCODE exit_errno)
  | ForkFailed _ | WaitFailed _ => None
  end.

(** The exit code on record after one more event. *)
Definition record_event (code : Z) (e : event) : Z :=
  match e with
  | EvCheck _ _ _ => code
  | EvRun _ r =>
      match child_status r with
      | Some status => if WIFEXITED status then WEXITSTATUS status else code
      | None => code
      end
  end.

(** The exit code on record after a trace, from [code] on. *)
Definition recorded (code : Z) (tr : list event) : Z :=
  fold_left record_event tr code.

(** The shape of the trace of one pass of the staleness loop of
    [run_makefile] over the prerequisites [pres]: one verdict per
    prerequisite, in order, and one run of the command right after each
    verdict "newer". *)
Inductive stale_trace (current : string) (exec_cmd : list string)
  : list string -> list event -> Prop :=
| stale_done : stale_trace current exec_cmd [] []
| stale_skip pre rest evs :
    stale_trace current exec_cmd rest evs ->
    stale_trace current exec_cmd (pre :: rest)
                (EvCheck current pre false :: evs)
| stale_run pre rest res evs :
    stale_trace current exec_cmd rest evs ->
    stale_trace current exec_cmd (pre :: rest)
                (EvCheck current pre true :: EvRun exec_cmd res :: evs).

(** The prerequisites a trace has verdicts for, and the number of verdicts
    "newer". *)
Fixpoint checked (tr : list event) : list string :=
  match tr with
  | [] => []
  | EvCheck _ pre _ :: rest => pre :: checked rest
  | EvRun _ _ :: rest => checked rest
  end.

Fixpoint stale_count (tr : list event) : nat :=
  match tr with
  | [] => O
  | EvCheck _ _ true :: rest => S (stale_count rest)
  | _ :: rest => stale_count rest
  end.

(** The process has [exitcode] as the trace records it, from [code] on. *)
Definition on_record {world : Type} (code : Z) (p : proc (world := world))
  : Prop :=
  exitcode (args p) = recorded code (trace p).


(** The commands of a trace, in order. *)
Fixpoint commands (tr : list event) : list (list string) :=
  match tr with
  | [] => []
  | EvRun argv _ :: rest => argv :: commands rest
  | EvCheck _ _ _ :: rest => commands rest
  end.

Arguments Ret {world A} a p.
Arguments Exit {world A} code p.
Arguments Overflow {world A}.

(** ** Start-up (mmake.c, init_struct, check_start_args, choose_makefile) *)

Definition MAX_LINE : Z := 1024.

Definition set_arg_b (v : Z) (s : start_args) : start_args :=
  {| arg_b := v; arg_s := arg_s s; n_tar := n_tar s; c_tar := c_tar s;
     exitcode := exitcode s; makefile_file := makefile_file s;
     target := target s |}.

Definition set_c_tar (v : Z) (s : start_args) : start_args :=
  {| arg_b := arg_b s; arg_s := arg_s s; n_tar := n_tar s; c_tar := v;
     exitcode := exitcode s; makefile_file := makefile_file s;
     target := target s |}.

Definition set_makefile_file (v : option string) (s : start_args)
  : start_args :=
  {| arg_b := arg_b s; arg_s := arg_s s; n_tar := n_tar s; c_tar := c_tar s;
     exitcode := exitcode s; makefile_file := v; target := target s |}.

Definition set_target (v : list string) (s : start_args) : start_args :=
  {| arg_b := arg_b s; arg_s := arg_s s; n_tar := n_tar s; c_tar := c_tar s;
     exitcode := exitcode s; makefile_file := makefile_file s; target := v |}.

(** The memory behind [sa->target]: one slot per pointer, [None] for
    [NULL].  [init_struct] gets it from [calloc], all [NULL]. *)
Definition init_slots : list (option string) :=
  repeat None (Z.to_nat (n_tar init_struct)).

(** One call of [getopt] that did not return -1: the character returned
    and [optarg] as the call left it. *)
Record getopt_result : Type := mk_getopt {
  flag : ascii;
  optarg : option string
}.

(** [safe_calloc] ends the program when [calloc] fails.  The calls of a
    run are numbered: 0 and 1 are those of [init_struct], for the
    structure and for the target array, and 2 + i is the one for the block
    of operand i.  An oracle gives the [errno] of a call that fails. *)
Definition calloc_oracle : Type := nat -> option Z.

(** How [check_start_args] ends: it returns, with the structure and the
    target array filled; or it writes the usage line and calls [exit]; or
    [safe_calloc] reports a failed [calloc] and calls [exit]; or it does
    something the C standard gives no meaning to (a call of
    [realloc_buff], which indexes past the one pointer it is given, or a
    [strcpy] past the end of its block). *)
Inductive startup : Type :=
| Ready (s : start_args) (slots : list (option string))
| Usage (code : Z) (s : start_args)
| NoMemory (errno : Z) (s : start_args)
| Undefined.

Definition usage_line : string :=
  ("usage: ./mmake [-f MAKEFILE] [-B] [-s] [TARGET]" ++ nl)%string.

(** The [getopt] loop, over the results of the successive calls. *)
Fixpoint read_flags (opts : list getopt_result) (s : start_args)
  : start_args + start_args :=
  match opts with
  | [] => inl s
  | o :: rest =>
      if Ascii.eqb (flag o) "f" then
        read_flags rest (set_makefile_file (optarg o) s)
      else if Ascii.eqb (flag o) "B" then read_flags rest (set_arg_b 1 s)
      else if Ascii.eqb (flag o) "s" then read_flags rest (set_arg_s 1 s)
      else if Ascii.eqb (flag o) "?" then inr s
      else read_flags rest s
  end.

(** [s->target[i] = ...]: inside the array, or undefined. *)
Fixpoint store (i : nat) (arg : string) (slots : list (option string))
  : option (list (option string)) :=
  match slots, i with
  | [], _ => None
  | _ :: rest, O => Some (Some arg :: rest)
  | x :: rest, S j => option_map (cons x) (store j arg rest)
  end.

(** The loop over the operands, [argv[optind]] to [argv[argc - 1]]. *)
Fixpoint store_targets (calloc : calloc_oracle) (optind : Z)
         (operands : list string)
         (s : start_args) (slots : list (option string)) : startup :=
  match operands with
  | [] => Ready s slots
  | arg :: rest =>
      if n_tar s <? optind then Undefined
      else if c_tar s <? 0 then Undefined
      else
        match calloc (2 + Z.to_nat (c_tar s))%nat with
        | Some errno => NoMemory errno s
        | None =>
            match store (Z.to_nat (c_tar s)) arg slots with
            | None => Undefined
            | Some slots' =>
                if MAX_LINE <=? Z.of_nat (String.length arg) then Undefined
                else
                  store_targets calloc (optind + 1) rest
                                (set_c_tar (c_tar s + 1) s) slots'
            end
        end
  end.

(** [check_start_args], given what [getopt] returned call by call, the
    value of [optind] and the order of [argv] it left behind, and the
    value of [errno] at the [exit] that follows the usage line. *)
Definition check_start_args (calloc : calloc_oracle)
           (opts : list getopt_result) (optind : Z)
           (argv : list string) (errno : Z)
           (s : start_args) (slots : list (option string)) : startup :=
  match read_flags opts s with
  | inr s' => Usage errno s'
  | inl s' =>
      store_targets calloc optind (skipn (Z.to_nat optind) argv) s' slots
  end.

(** The walk of [main] over [sa->target], up to the first [NULL]; it
    leaves the array when there is none. *)
Fixpoint until_null (slots : list (option string)) : option (list string) :=
  match slots with
  | [] => None
  | None :: _ => Some []
  | Some x :: rest => option_map (cons x) (until_null rest)
  end.

(** Whether [getopt] returned the character [c] at some call, and the
    [optarg] of the last call that returned [f], if any. *)
Definition has_flag (c : ascii) (opts : list getopt_result) : bool :=
  existsb (fun o => Ascii.eqb (flag o) c) opts.

Definition last_file (opts : list getopt_result) (before : option string)
  : option string :=
  fold_left (fun acc o => if Ascii.eqb (flag o) "f" then optarg o else acc)
            opts before.

(** The name of the file [choose_makefile] opens. *)
Definition makefile_name (s : start_args) : string :=
  match makefile_file s with
  | None => "mmakefile"
  | Some name => name
  end.

(** [fopen(path, "r")] and [parse_makefile], the two calls of
    [choose_makefile] that can fail. *)
Class Loader (world file makefile : Type) : Type := {
  fopen : world -> string -> Z + file;
  parse_makefile : file -> option makefile
}.

Section Startup.

Context {makefile rule world file : Type}
        {PR : Parser makefile rule} {SYS : OS world}
        {LD : Loader world file makefile}.

Notation "x <- c ;; k" := (bind c (fun x => k))
  (at level 61, c at next level, right associativity).
Notation "c ;; k" := (bind c (fun _ => k))
  (at level 61, right associativity).

(** What [perror] writes: the prefix and a colon only when the prefix is
    not empty. *)
Definition perror_text (s : string) (errno : Z) : string :=
  match s with
  | EmptyString => (strerror errno ++ nl)%string
  | _ => (s ++ ": " ++ strerror errno ++ nl)%string
  end.

Definition choose_makefile : M (world := world) makefile :=
  path <- gets (fun p => makefile_file (args p)) ;;
  w <- gets sys ;;
  match path with
  | None =>
      match fopen w "mmakefile" with
      | inl errno =>
          eprintf (perror_text "mmakefile:" errno) ;;
          exit (errno_after_perror w errno)
      | inr f =>
          match parse_makefile f with
          | None =>
              eprintf "mmakefile: Could not parse makefile" ;;
              exit EXIT_FAILURE
          | Some m => ret m
          end
      end
  | Some name =>
      match fopen w name with
      | inl errno =>
          eprintf (name ++ ":")%string ;;
          eprintf (perror_text "" (errno_after_fprintf w errno)) ;;
          exit (errno_after_perror w (errno_after_fprintf w errno))
      | inr f =>
          match parse_makefile f with
          | None =>
              eprintf (name ++ ": Could not parse makefile")%string ;;
              exit EXIT_FAILURE
          | Some m => ret m
          end
      end
  end.

(** [main] after [check_start_args] has returned, [choose_makefile]
    included. *)
Definition main_from (fuel : nat) (sa : start_args) (w : world)
  : outcome unit :=
  ((if arg_s sa =? 1 then fclose_stdout else ret tt) ;;
   c <- gets (fun p => c_tar (args p)) ;;
   (if c =? 0
    then
      m <- choose_makefile ;;
      run_makefile fuel m (makefile_default_target m)
    else
      m <- choose_makefile ;;
      names <- gets (fun p => target (args p)) ;;
      for_each (run_makefile fuel m) names) ;;
   code <- gets (fun p => exitcode (args p)) ;;
   exit code) (boot sa w).

(** The exit of [safe_calloc]: the message for the [errno] of [calloc],
    and [exit] on [errno] as read after [perror]. *)
Definition out_of_memory (errno : Z) (s : start_args) (w : world)
  : outcome unit :=
  Exit (errno_after_perror w errno)
       (with_err [perror_line (strerror errno) errno] (boot s w)).

(** The whole of [main]: [None] when the program leaves what the C
    standard defines, in [check_start_args] or in the walk over a target
    array without a [NULL]. *)
Definition mmake (fuel : nat) (calloc : calloc_oracle)
           (opts : list getopt_result) (optind : Z)
           (argv : list string) (errno : Z) (w : world)
  : option (outcome unit) :=
  match calloc 0%nat, calloc 1%nat with
  | Some e, _ => Some (out_of_memory e init_struct w)
  | None, Some e => Some (out_of_memory e init_struct w)
  | None, None =>
      match check_start_args calloc opts optind argv errno
                             init_struct init_slots with
      | Undefined => None
      | Usage code s => Some (Exit code (with_err [usage_line] (boot s w)))
      | NoMemory e s => Some (out_of_memory e s w)
      | Ready s slots =>
          if c_tar s =? 0 then Some (main_from fuel s w)
          else
            match until_null slots with
            | None => None
            | Some names => Some (main_from fuel (set_target names s) w)
            end
      end
  end.

End Startup.

(** ** What a build is expected to do *)

(** The text of a list of chunks written one after the other. *)
Definition text (chunks : list string) : string :=
  fold_right String.append EmptyString chunks.

(** The line a command is echoed as: its words joined by single blanks,
    then a newline; nothing for a command without words. *)
Definition command_line (exec_cmd : list string) : string :=
  match exec_cmd with
  | [] => EmptyString
  | _ => (String.concat " " exec_cmd ++ nl)%string
  end.

Section Expectations.

Context {makefile rule world : Type} {PR : Parser makefile rule} {SYS : OS world}.

(** The commands of the dependency tree below [name], prerequisites
    first and in declaration order, a rule's own command last; a rule that
    is reached along several paths is listed once per path. *)
Fixpoint plan (fuel : nat) (m : makefile) (name : string)
  : list (list string) :=
  match fuel with
  | O => []
  | S fuel' =>
      match makefile_rule m name with
      | None => []
      | Some tar_rule =>
          match rule_prereq tar_rule with
          | Some tar_prereq =>
              flat_map (plan fuel' m) tar_prereq ++ [rule_cmd tar_rule]
          | None => [rule_cmd tar_rule]
          end
      end
  end.

(** Every rule has a prerequisite array, and every prerequisite and every
    target of a rule is a file, the target at least as recent as each of
    its prerequisites. *)
Definition up_to_date (m : makefile) (w : world) : Prop :=
  forall (name : string) (r : rule),
    makefile_rule m name = Some r ->
    exists pres,
      rule_prereq r = Some pres
      /\ forall pre, In pre pres ->
           access w pre = true
           /\ access w name = true
           /\ st_mtime w pre <= st_mtime w name.

(** A set of names closed under "has a rule with a prerequisite in the
    set": every name in it is on, or leads into, a dependency cycle. *)
Definition cyclic (m : makefile) (trapped : string -> Prop) : Prop :=
  forall name, trapped name ->
    exists (r : rule) (pres : list string) (pre : string),
      makefile_rule m name = Some r
      /\ rule_prereq r = Some pres
      /\ In pre pres
      /\ trapped pre.

(** The prerequisite [pre] is a file that calls for a rebuild of
    [current]. *)
Definition stale (w : world) (current pre : string) : Prop :=
  access w current = false \/ st_mtime w current < st_mtime w pre.

(** The last thing a process did was a [fork] or a [waitpid] that
    failed, and [code] is what it found in [errno] after the [perror] that
    reported it. *)
Definition spawn_failed (code : Z) (p : proc (world := world)) : Prop :=
  exists tr argv errno,
    (trace p = tr ++ [EvRun argv (ForkFailed errno)]
     \/ trace p = tr ++ [EvRun argv (WaitFailed errno)])
    /\ code = errno_after_perror (sys p) errno.

(** The last thing a process did was neither a [fork] nor a [waitpid]
    that failed. *)
Definition spawn_ok (p : proc (world := world)) : Prop :=
  forall tr argv errno,
    trace p <> tr ++ [EvRun argv (ForkFailed errno)]
    /\ trace p <> tr ++ [EvRun argv (WaitFailed errno)].

(** The last thing a process did was to report a prerequisite that is no
    file and has no rule. *)
Definition no_rule_reported (m : makefile) (p : proc (world := world))
  : Prop :=
  exists lines pre,
    err p = lines ++ [no_rule_line pre]
    /\ access (sys p) pre = false
    /\ makefile_rule m pre = None.

(** [q] is [p] but for its [exitcode], with more on stdout, on stderr and
    in the trace. *)
Definition extends (p q : proc (world := world)) : Prop :=
  set_exitcode 0 (args q) = set_exitcode 0 (args p)
  /\ stdout_open q = stdout_open p
  /\ (exists lines, out q = out p ++ lines)
  /\ (exists lines, err q = err p ++ lines)
  /\ (exists evs,
        trace q = trace p ++ evs
        /\ (commands evs = [] ->
            sys q = sys p /\ args q = args p /\ out q = out p)).

(** [stdout] is open and holds the echo of every command of the trace. *)
Definition echoed (p : proc (world := world)) : Prop :=
  stdout_open p = true
  /\ text (out p) = text (map command_line (commands (trace p))).

(** [stdout] is closed and nothing was written to it. *)
Definition silent (p : proc (world := world)) : Prop :=
  stdout_open p = false /\ out p = [].

(** [q] is [p] with, at most, more verdicts in the trace. *)
Definition idle (p q : proc (world := world)) : Prop :=
  args q = args p /\ sys q = sys p /\ stdout_open q = stdout_open p
  /\ out q = out p /\ err q = err p
  /\ commands (trace q) = commands (trace p).

End Expectations.

(** ** A rule model and a toy system to run the program on *)

Module Demo.

(** Modelled from the spec: the parser of [parser.h] is not among the
    sources.  A rule is a target name, its prerequisites and its command;
    the rule model is the list of rules in declaration order, looked up by
    name; the default target is the first rule's (spec, sections 3 and 6). *)
Record rule : Type := mk_rule {
  name : string;
  prereq : option (list string);
  cmd : list string
}.

Definition makefile : Type := list rule.

Definition lookup (m : makefile) (t : string) : option rule :=
  find (fun r => String.eqb (name r) t) m.

Definition default_target (m : makefile) : string :=
  match m with
  | [] => EmptyString
  | r :: _ => name r
  end.

#[export] Instance parser : Parser makefile rule := {
  makefile_default_target := default_target;
  makefile_rule := lookup;
  rule_prereq := prereq;
  rule_cmd := cmd
}.

(** A file system of modification times with a clock, and a handful of
    programs. *)
Record world : Type := mk_world {
  files : list (string * Z);
  clock : Z
}.

Definition mtime_of (w : world) (path : string) : option Z :=
  option_map snd (find (fun f => String.eqb (fst f) path) (files w)).

Definition exists_file (w : world) (path : string) : bool :=
  match mtime_of w path with Some _ => true | None => false end.

Definition mtime (w : world) (path : string) : Z :=
  match mtime_of w path with Some t => t | None => 0 end.

Definition touch (path : string) (w : world) : world :=
  mk_world ((path, clock w) :: files w) (clock w + 1).

Definition ENOENT : Z := 2.
Definition EAGAIN : Z := 11.
Definition EINVAL : Z := 22.

(** [touch f] creates or refreshes [f]; [true] and [false] exit with 0 and
    1; [exit2] exits with 2; [echo] fails with status 1 when descriptor 1 is
    closed; [abort] is killed by SIGABRT; [forkfail] stands for a command
    at which [fork] itself fails; a null program name gets the child killed
    by SIGSEGV; anything else is not found by [execvp]. *)
Definition run_program (open : bool) (w : world) (argv : list string)
  : spawn_result * world :=
  match argv with
  | [] => (Terminated 139, w)
  | prog :: rest =>
      if String.eqb prog "touch" then
        match rest with
        | [f] => (Terminated 0, touch f w)
        | _ => (Terminated 256, w)
        end
      else if String.eqb prog "true" then (Terminated 0, w)
      else if String.eqb prog "false" then (Terminated 256, w)
      else if String.eqb prog "exit2" then (Terminated 512, w)
      else if String.eqb prog "echo" then (Terminated (if open then 0 else 256), w)
      else if String.eqb prog "abort" then (Terminated 134, w)
      else if String.eqb prog "forkfail" then (ForkFailed EAGAIN, w)
      else (ExecFailed ENOENT EINVAL, w)
  end.

Definition error_text (errno : Z) : string :=
  if errno =? ENOENT then "No such file or directory"
  else if errno =? EAGAIN then "Resource temporarily unavailable"
  else if errno =? EINVAL then "Invalid argument"
  else "Unknown error".

(** A system whose [perror] writes its message and leaves [EINVAL] in
    [errno], whatever the error it reported, and whose [fprintf] leaves
    [errno] alone. *)
#[export] Instance system : OS world := {
  access := exists_file;
  st_mtime := mtime;
  spawn := run_program;
  strerror := error_text;
  errno_after_perror := fun _ _ => EINVAL;
  errno_after_fprintf := fun _ e => e
}.

(** The same system with programs that do not look at descriptor 1. *)
Definition deaf_system : OS world := {|
  access := exists_file;
  st_mtime := mtime;
  spawn := fun _ => run_program true;
  strerror := error_text;
  errno_after_perror := fun _ _ => EINVAL;
  errno_after_fprintf := fun _ e => e
|}.

Definition flags (b s : Z) (targets : list string) : start_args :=
  {| arg_b := b; arg_s := s; n_tar := 50; c_tar := Z.of_nat (List.length targets);
     exitcode := 0; makefile_file := None; target := targets |}.


Local Open Scope string_scope.

(** A source file, five seconds old on a clock that shows ten. *)
Definition w_src : world := mk_world [("app.c", 5)] 10.

(** Everything built, each file newer than what it is made from. *)
Definition w_built : world :=
  mk_world [("app", 7); ("app.o", 6); ("app.c", 5)] 10.

(** A target older than its two prerequisites. *)
Definition w_old : world := mk_world [("t", 1); ("a", 5); ("b", 6)] 10.

(** A target as old as its prerequisite. *)
Definition w_tie : world := mk_world [("t", 5); ("a", 5)] 10.

(** A target newer than its first prerequisite and older than its
    second. *)
Definition w_mixed : world := mk_world [("t", 5); ("a", 4); ("b", 6)] 10.

Definition m_app : makefile :=
  [ mk_rule "app" (Some ["app.o"]) ["touch"; "app"];
    mk_rule "app.o" (Some ["app.c"]) ["touch"; "app.o"] ].

Definition r_first : rule := mk_rule "first" None ["exit2"].
Definition r_second : rule := mk_rule "second" None ["true"].
Definition m_two : makefile := [r_first; r_second].

Definition r_clean : rule := mk_rule "clean" (Some []) ["touch"; "x"].
Definition m_clean : makefile := [r_clean].

Definition r_marker : rule := mk_rule "marker" None [].
Definition m_marker : makefile := [r_marker].

Definition r_lost : rule := mk_rule "lost" None ["nosuch"].
Definition m_lost : makefile := [r_lost; r_second].

Definition r_hello : rule := mk_rule "hello" None ["echo"; "hi"].
Definition m_hello : makefile := [r_hello].

Definition r_abort : rule := mk_rule "crash" None ["abort"].
Definition r_nofork : rule := mk_rule "nofork" None ["forkfail"].
Definition m_nofork : makefile := [r_nofork; r_second].

Definition r_t : rule := mk_rule "t" (Some ["a"; "b"]) ["false"].
Definition m_t : makefile := [r_t].

Definition r_touch : rule := mk_rule "t" (Some ["a"; "b"]) ["touch"; "t"].
Definition m_touch : makefile := [r_touch].

Definition r_needs : rule := mk_rule "t" (Some ["gone"; "a"]) ["true"].
Definition m_needs : makefile := [r_needs].

Definition r_gen : rule := mk_rule "gone" None ["touch"; "gone"].
Definition m_gen : makefile := [r_needs; r_gen].

(** Processes at the start of a run without flags and without explicit
    targets, one per world, and one that has a failed command behind it. *)
Definition p_src : proc := started (flags 0 0 []) w_src.
Definition p_old : proc := started (flags 0 0 []) w_old.
Definition p_tie : proc := started (flags 0 0 []) w_tie.
Definition p_mixed : proc := started (flags 0 0 []) w_mixed.
Definition p_failed : proc := with_args (set_exitcode 2) p_src.

(** Two rules that need each other. *)
Definition r_ping : rule := mk_rule "ping" (Some ["pong"]) ["true"].
Definition r_pong : rule := mk_rule "pong" (Some ["ping"]) ["true"].
Definition m_loop : makefile := [r_ping; r_pong].

Definition on_loop (name : string) : Prop := name = "ping" \/ name = "pong".

Definition p_built : proc := started (flags 0 0 []) w_built.
Definition p_forced : proc := started (flags 1 0 []) w_tie.

(** A directory with three makefiles, one of them broken; a file is
    opened by its name and parsed by its name. *)
Definition w_dir : world :=
  mk_world [("mmakefile", 3); ("two.mk", 3); ("broken.mk", 3); ("app.c", 5)]
           10.

Definition open_file (w : world) (path : string) : Z + string :=
  if exists_file w path then inr path else inl ENOENT.

Definition parse_file (path : string) : option makefile :=
  if String.eqb path "mmakefile" then Some m_app
  else if String.eqb path "two.mk" then Some m_two
  else None.

#[export] Instance loader : Loader world string makefile := {
  fopen := open_file;
  parse_makefile := parse_file
}.

(** Command lines: what [getopt] returned, and [argv] as it left it. *)
Definition opt (c : ascii) : getopt_result := mk_getopt c None.
Definition opt_f (path : string) : getopt_result :=
  mk_getopt "f" (Some path).

Definition argv_two : list string :=
  ["mmake"; "-B"; "-f"; "two.mk"; "second"; "first"].

Definition argv_fifty : list string := "mmake" :: repeat "t" 50.


End Demo.

(** The commands a run forked, in order. *)
Definition ran {world A : Type} (o : outcome (world := world) A)
  : list (list string) :=
  match final o with
  | Some p => commands (trace p)
  | None => []
  end.

(** * Properties *)

(** ** The wait-status macros *)


Lemma WIFEXITED_W_EXITCODE (code : Z) : WIFEXITED (W_EXITCODE code) = true.
Proof.
  unfold WIFEXITED, W_EXITCODE.
  change 127 with (Z.ones 7).
  rewrite Z.land_ones by lia.
  rewrite Z.shiftl_mul_pow2 by lia.
  change (2 ^ 8) with (2 * 2 ^ 7).
  rewrite Z.mul_assoc, Z.mod_mul by lia.
  reflexivity.
Qed.

Lemma WEXITSTATUS_W_EXITCODE (code : Z) :
  WEXITSTATUS (W_EXITCODE code) = Z.land code 255.
Proof.
  unfold WEXITSTATUS, W_EXITCODE.
  change 65280 with (Z.shiftl 255 8).
  rewrite <- Z.shiftl_land, Z.shiftr_shiftl_l by lia.
  rewrite Z.sub_diag, Z.shiftl_0_r, <- Z.land_assoc, Z.land_diag.
  reflexivity.
Qed.

Lemma recorded_app (code : Z) (tr1 tr2 : list event) :
  recorded code (tr1 ++ tr2) = recorded (recorded code tr1) tr2.
Proof. apply fold_left_app. Qed.

Lemma commands_app (tr1 tr2 : list event) :
  commands (tr1 ++ tr2) = commands tr1 ++ commands tr2.
Proof.
  induction tr1 as [|[c q v|argv r] tr1 IH]; simpl; [reflexivity|exact IH|].
  now rewrite IH.
Qed.

Section Properties.

Context {makefile rule world : Type} {PR : Parser makefile rule} {SYS : OS world}.

Notation "x <- c ;; k" := (bind c (fun x => k))
  (at level 61, c at next level, right associativity).
Notation "c ;; k" := (bind c (fun _ => k))
  (at level 61, right associativity).

Local Abbreviation process := (proc (world := world)).
Local Abbreviation comp := (M (world := world)).
Implicit Types (p : process) (m : makefile) (r : rule).

(** ** The monad *)

Lemma bind_Ret {A B} (c : M A) (k : A -> M B) p a p' :
  c p = Ret a p' -> bind c k p = k a p'.
Proof. unfold bind. now intros ->. Qed.

Lemma bind_Exit {A B} (c : M A) (k : A -> M B) p code p' :
  c p = Exit code p' -> bind c k p = Exit code p'.
Proof. unfold bind. now intros ->. Qed.

Lemma for_each_app (f : string -> M unit) (xs ys : list string) p :
  for_each f (xs ++ ys) p = (for_each f xs ;; for_each f ys) p.
Proof.
  revert p. induction xs as [|x xs IH]; intro p; simpl.
  - reflexivity.
  - unfold bind. destruct (f x p) as [[] p'| |]; try reflexivity.
    rewrite IH. reflexivity.
Qed.

(** ** The command executor, in one equation *)

Lemma print_cmd_cons (x y : string) (rest : list string) :
  print_cmd (world := world) (x :: y :: rest) =
  (printf (x ++ " ")%string ;; print_cmd (y :: rest)).
Proof. reflexivity. Qed.

Lemma print_cmd_echo (exec_cmd : list string) p :
  print_cmd exec_cmd p = Ret tt (echo exec_cmd p).
Proof.
  revert p.
  induction exec_cmd as [|x [|y rest] IH]; intros [a w o ou er tr].
  - unfold echo, with_out; simpl. unfold ret.
    destruct o; [rewrite app_nil_r|]; reflexivity.
  - unfold echo, with_out; simpl. unfold printf, modify; simpl.
    now destruct o.
  - rewrite print_cmd_cons.
    unfold bind, printf, modify. rewrite IH.
    unfold echo, with_out; simpl.
    destruct o; simpl; [|reflexivity].
    now rewrite <- app_assoc.
Qed.

Lemma echo_stdout_open (exec_cmd : list string) p :
  stdout_open (echo exec_cmd p) = stdout_open p.
Proof. unfold echo. now destruct (stdout_open p) eqn:E. Qed.

Lemma echo_sys (exec_cmd : list string) p : sys (echo exec_cmd p) = sys p.
Proof. unfold echo. now destruct (stdout_open p). Qed.

Lemma echo_args (exec_cmd : list string) p : args (echo exec_cmd p) = args p.
Proof. unfold echo. now destruct (stdout_open p). Qed.

Lemma echo_err (exec_cmd : list string) p : err (echo exec_cmd p) = err p.
Proof. unfold echo. now destruct (stdout_open p). Qed.

Lemma echo_trace (exec_cmd : list string) p :
  trace (echo exec_cmd p) = trace p.
Proof. unfold echo. now destruct (stdout_open p). Qed.

Lemma run_cmd_eq r p :
  run_cmd r p =
  let p1 := forked (rule_cmd r) p in
  match spawned (rule_cmd r) p with
  | ForkFailed e =>
      Exit (errno_after_perror (sys p1) e)
           (with_err [perror_line (strerror e) e] p1)
  | WaitFailed e =>
      Exit (errno_after_perror (sys p1) e)
           (with_err [perror_line (strerror e) e] p1)
  | ExecFailed e e' =>
      Ret tt (after_wait (W_EXITCODE e')
                (with_err [perror_line (strerror e) e] p1))
  | Terminated status => Ret tt (after_wait status p1)
  end.
Proof.
  unfold run_cmd, forked, spawned, bind at 1.
  rewrite print_cmd_echo.
  unfold bind at 1, gets at 1. unfold bind at 1, gets at 1.
  rewrite echo_stdout_open, echo_sys.
  destruct (spawn (stdout_open p) (sys p) (rule_cmd r)) as [res w'].
  unfold bind, modify, perror, eprintf, exit, record_status, after_wait, ret.
  simpl.
  destruct res as [e|e|e e'|status]; simpl; try reflexivity.
  - now destruct (WIFEXITED (W_EXITCODE e')).
  - now destruct (WIFEXITED status).
Qed.

Lemma run_cmd_final r p : exists p', final (run_cmd r p) = Some p'.
Proof.
  rewrite run_cmd_eq. cbv zeta.
  destruct (spawned (rule_cmd r) p); simpl; eauto.
Qed.

Lemma forked_trace (exec_cmd : list string) p :
  trace (forked exec_cmd p) =
  trace p ++ [EvRun exec_cmd (spawned exec_cmd p)].
Proof.
  unfold forked, spawned.
  destruct (spawn (stdout_open p) (sys p) exec_cmd) as [res w'].
  simpl. now rewrite echo_trace.
Qed.

Lemma forked_args (exec_cmd : list string) p :
  args (forked exec_cmd p) = args p.
Proof.
  unfold forked.
  destruct (spawn (stdout_open p) (sys p) exec_cmd) as [res w'].
  simpl. apply echo_args.
Qed.

Lemma forked_out (exec_cmd : list string) p :
  out (forked exec_cmd p) = out (echo exec_cmd p).
Proof.
  unfold forked.
  now destruct (spawn (stdout_open p) (sys p) exec_cmd) as [res w'].
Qed.

Lemma forked_err (exec_cmd : list string) p :
  err (forked exec_cmd p) = err p.
Proof.
  unfold forked.
  destruct (spawn (stdout_open p) (sys p) exec_cmd) as [res w'].
  simpl. apply echo_err.
Qed.

Lemma forked_stdout_open (exec_cmd : list string) p :
  stdout_open (forked exec_cmd p) = stdout_open p.
Proof.
  unfold forked.
  destruct (spawn (stdout_open p) (sys p) exec_cmd) as [res w'].
  simpl. apply echo_stdout_open.
Qed.

Lemma after_wait_trace (status : Z) p :
  trace (after_wait status p) = trace p.
Proof. unfold after_wait. now destruct (WIFEXITED status). Qed.

Lemma after_wait_out (status : Z) p : out (after_wait status p) = out p.
Proof. unfold after_wait. now destruct (WIFEXITED status). Qed.

Lemma after_wait_sys (status : Z) p : sys (after_wait status p) = sys p.
Proof. unfold after_wait. now destruct (WIFEXITED status). Qed.

Lemma after_wait_err (status : Z) p : err (after_wait status p) = err p.
Proof. unfold after_wait. now destruct (WIFEXITED status). Qed.

Lemma after_wait_stdout_open (status : Z) p :
  stdout_open (after_wait status p) = stdout_open p.
Proof. unfold after_wait. now destruct (WIFEXITED status). Qed.

(** ** The staleness oracle *)

Lemma check_file_both_exist (current prereq : string) m p :
  access (sys p) prereq = true ->
  access (sys p) current = true ->
  check_file current prereq m p =
  Ret (st_mtime (sys p) current <? st_mtime (sys p) prereq) p.
Proof.
  intros Hpre Hcur. unfold check_file, difftime. rewrite Hpre, Hcur. simpl.
  destruct (st_mtime (sys p) prereq - st_mtime (sys p) current <? 0) eqn:E1;
    destruct (st_mtime (sys p) prereq - st_mtime (sys p) current =? 0) eqn:E2;
    destruct (st_mtime (sys p) current <? st_mtime (sys p) prereq) eqn:E3;
    simpl; try reflexivity; exfalso;
    rewrite ?Z.ltb_lt, ?Z.ltb_ge, ?Z.eqb_eq, ?Z.eqb_neq in *; lia.
Qed.

(** C2: when the prerequisite names an existing file, [check_file] never
    exits; with the target existing too it answers "rebuild" exactly when
    the prerequisite's modification time is strictly greater than the
    target's (so equal or older gives "no rebuild"), and with the target
    missing it answers "rebuild". *)
Theorem check_file_existing_prereq (current prereq : string) m p :
  access (sys p) prereq = true ->
  (access (sys p) current = true ->
   check_file current prereq m p =
   Ret (st_mtime (sys p) current <? st_mtime (sys p) prereq) p)
  /\ (access (sys p) current = true ->
      st_mtime (sys p) current < st_mtime (sys p) prereq ->
      check_file current prereq m p = Ret true p)
  /\ (access (sys p) current = true ->
      st_mtime (sys p) prereq <= st_mtime (sys p) current ->
      check_file current prereq m p = Ret false p)
  /\ (access (sys p) current = false ->
      check_file current prereq m p = Ret true p).
Proof.
  intro Hpre. repeat split.
  - now apply check_file_both_exist.
  - intros Hcur Hlt. rewrite check_file_both_exist by assumption.
    apply Z.ltb_lt in Hlt. now rewrite Hlt.
  - intros Hcur Hle. rewrite check_file_both_exist by assumption.
    apply Z.ltb_ge in Hle. now rewrite Hle.
  - intro Hcur. unfold check_file. now rewrite Hpre, Hcur.
Qed.

(** C3: when the prerequisite names no existing file and the makefile has
    no rule for it, [check_file] writes the "No rule to make target"
    message to stderr and calls [exit(EXIT_FAILURE)], a non-zero status;
    the exit is that of whatever computation the check is part of, so the
    remaining prerequisites of the staleness loop are not looked at and no
    command is run after it (the trace and the world are those before the
    check).  When a rule exists for the missing prerequisite the answer is
    "rebuild". *)
Theorem check_file_missing_prereq (current prereq : string) m p :
  access (sys p) prereq = false ->
  (makefile_rule m prereq = None ->
   check_file current prereq m p =
     Exit EXIT_FAILURE (with_err [no_rule_line prereq] p)
   /\ EXIT_FAILURE <> 0
   /\ (forall (B : Type) (k : bool -> M B),
         bind (check_file current prereq m) k p =
         Exit EXIT_FAILURE (with_err [no_rule_line prereq] p))
   /\ (forall r rest,
         check_prereqs m current r (prereq :: rest) p =
         Exit EXIT_FAILURE (with_err [no_rule_line prereq] p))
   /\ trace (with_err [no_rule_line prereq] p) = trace p
   /\ sys (with_err [no_rule_line prereq] p) = sys p)
  /\ (forall r', makefile_rule m prereq = Some r' ->
      check_file current prereq m p = Ret true p).
Proof.
  intro Hpre.
  assert (Hexit : makefile_rule m prereq = None ->
                  check_file current prereq m p =
                  Exit EXIT_FAILURE (with_err [no_rule_line prereq] p)).
  { intro Hno. unfold check_file. rewrite Hpre, Hno. reflexivity. }
  split.
  - intro Hno. specialize (Hexit Hno). repeat split.
    + exact Hexit.
    + discriminate.
    + intros B k. now apply bind_Exit.
    + intros r rest. simpl. now apply bind_Exit.
  - intros r' Hr. unfold check_file. now rewrite Hpre, Hr.
Qed.

(** ** The command executor *)

(** C10: when the child of [run_cmd] did not exit normally ([WIFEXITED]
    is false for the status [waitpid] stored), [run_cmd] returns to its
    caller and the [start_args] structure, its [exitcode] included, is what
    it was.  Whenever [run_cmd] returns with a changed [exitcode], the
    parent received a status for which [WIFEXITED] holds, and the new
    [exitcode] is its [WEXITSTATUS]. *)
Theorem run_cmd_abnormal_child r p :
  (forall status,
     spawned (rule_cmd r) p = Terminated status ->
     WIFEXITED status = false ->
     run_cmd r p = Ret tt (forked (rule_cmd r) p)
     /\ args (forked (rule_cmd r) p) = args p)
  /\ (forall p',
        run_cmd r p = Ret tt p' ->
        exitcode (args p') <> exitcode (args p) ->
        exists status,
          child_status (spawned (rule_cmd r) p) = Some status
          /\ WIFEXITED status = true
          /\ exitcode (args p') = WEXITSTATUS status).
Proof.
  split.
  - intros status Hsp Hsig. rewrite run_cmd_eq. cbv zeta. rewrite Hsp.
    unfold after_wait. rewrite Hsig. split; [reflexivity|apply forked_args].
  - intros p' Hrun Hne. rewrite run_cmd_eq in Hrun. cbv zeta in Hrun.
    destruct (spawned (rule_cmd r) p) as [e|e|e e'|status]; try discriminate.
    + exists (W_EXITCODE e'). injection Hrun as <-.
      unfold after_wait in *. rewrite WIFEXITED_W_EXITCODE in *.
      repeat split.
    + exists status. injection Hrun as <-.
      unfold after_wait in *.
      destruct (WIFEXITED status); [repeat split|].
      exfalso. apply Hne. now rewrite forked_args.
Qed.

(** C7, as the program has it: [run_cmd] on a rule with an empty command
    writes nothing to stdout, but it does fork, with the empty argument
    vector, and waits: the call ends, by return or by [exit], in a process
    whose trace has the fork as its last event.  A failure of [fork] or of
    [waitpid] ends the program, by [exit] on [errno] as read after the
    [perror] that reports it; in every other case the call returns.  When
    the child did not exit normally [start_args] is unchanged; when it did,
    [exitcode] is its exit status. *)
Theorem run_cmd_empty_command r p :
  rule_cmd r = [] ->
  exists p',
    final (run_cmd r p) = Some p'
    /\ out p' = out p
    /\ trace p' = trace p ++ [EvRun [] (spawned [] p)]
    /\ (forall status,
          spawned [] p = Terminated status ->
          WIFEXITED status = false ->
          run_cmd r p = Ret tt p' /\ args p' = args p)
    /\ (forall e,
          spawned [] p = ForkFailed e \/ spawned [] p = WaitFailed e ->
          run_cmd r p = Exit (errno_after_perror (sys p') e) p'
          /\ err p' = err p ++ [perror_line (strerror e) e]
          /\ forall (B : Type) (k : unit -> M B),
               bind (run_cmd r) k p =
               Exit (errno_after_perror (sys p') e) p')
    /\ (forall status,
          child_status (spawned [] p) = Some status ->
          run_cmd r p = Ret tt p'
          /\ (WIFEXITED status = true ->
              exitcode (args p') = WEXITSTATUS status)
          /\ (WIFEXITED status = false -> args p' = args p)).
Proof.
  intro Hcmd.
  assert (Hout : out (forked [] p) = out p).
  { rewrite forked_out. unfold echo, with_out. simpl.
    destruct (stdout_open p); simpl; [apply app_nil_r|reflexivity]. }
  pose proof (run_cmd_eq r p) as Heq. cbv zeta in Heq. rewrite Hcmd in Heq.
  destruct (spawned [] p) as [e|e|e e'|status] eqn:Hsp.
  - eexists; split; [rewrite Heq; reflexivity|]. simpl.
    rewrite Hout, forked_trace, Hsp, forked_err.
    split; [reflexivity|]. split; [reflexivity|].
    split; [discriminate|]. split; [|discriminate].
    intros e0 [[= <-]|[=]]. split; [exact Heq|]. split; [reflexivity|].
    intros B k. now apply bind_Exit.
  - eexists; split; [rewrite Heq; reflexivity|]. simpl.
    rewrite Hout, forked_trace, Hsp, forked_err.
    split; [reflexivity|]. split; [reflexivity|].
    split; [discriminate|]. split; [|discriminate].
    intros e0 [[=]|[= <-]]. split; [exact Heq|]. split; [reflexivity|].
    intros B k. now apply bind_Exit.
  - eexists; split; [rewrite Heq; reflexivity|].
    rewrite after_wait_out, after_wait_trace. simpl.
    rewrite Hout, forked_trace, Hsp.
    split; [reflexivity|]. split; [reflexivity|].
    split; [discriminate|]. split; [intros e0 [[=]|[=]]|].
    intros status [= <-]. split; [exact Heq|].
    unfold after_wait. rewrite WIFEXITED_W_EXITCODE.
    split; [reflexivity|discriminate].
  - eexists; split; [rewrite Heq; reflexivity|].
    rewrite after_wait_out, after_wait_trace, Hout, forked_trace, Hsp.
    split; [reflexivity|]. split; [reflexivity|].
    split.
    { intros status0 [= <-] Hsig. split; [exact Heq|].
      unfold after_wait. rewrite Hsig. apply forked_args. }
    split; [intros e0 [[=]|[=]]|].
    intros status0 [= <-]. split; [exact Heq|].
    unfold after_wait.
    destruct (WIFEXITED status); split; try discriminate; try reflexivity.
    intros _. apply forked_args.
Qed.

(** C6, as the program has it: a failure of [fork] or of [waitpid] is
    reported with [perror], on the [errno] of the failed call, and ends the
    program with [exit(errno)], on [errno] as read after [perror], whatever
    was to follow the call: nothing is run and no verdict is asked for
    after the failed call.  The status is not zero when [errno] then holds
    an error number (one from 1 to 255).  A failure of [execvp] happens in
    the child: the child reports it and exits with its [errno]; the
    parent's [run_cmd] returns with the low eight bits of that [errno] as
    [exitcode], and the build goes on. *)
Theorem run_cmd_spawn_failure r p (e : Z) :
  (spawned (rule_cmd r) p = ForkFailed e \/
   spawned (rule_cmd r) p = WaitFailed e ->
   let code := errno_after_perror (sys (forked (rule_cmd r) p)) e in
   let q := with_err [perror_line (strerror e) e] (forked (rule_cmd r) p) in
   run_cmd r p = Exit code q
   /\ (forall (B : Type) (k : unit -> M B), bind (run_cmd r) k p = Exit code q)
   /\ (forall fuel m name rest,
         makefile_rule m name = Some r ->
         rule_prereq r = None ->
         for_each (run_makefile (S fuel) m) (name :: rest) p = Exit code q)
   /\ trace q = trace p ++ [EvRun (rule_cmd r) (spawned (rule_cmd r) p)]
   /\ (0 < code < 256 -> code <> 0 /\ Z.land code 255 <> 0))
  /\ (forall e',
      spawned (rule_cmd r) p = ExecFailed e e' ->
      run_cmd r p =
        Ret tt (with_args (set_exitcode (Z.land e' 255))
                  (with_err [perror_line (strerror e) e]
                     (forked (rule_cmd r) p)))).
Proof.
  split.
  - intro Hsp. cbv zeta.
    assert (Hexit : run_cmd r p =
              Exit (errno_after_perror (sys (forked (rule_cmd r) p)) e)
                   (with_err [perror_line (strerror e) e]
                      (forked (rule_cmd r) p))).
    { rewrite run_cmd_eq. cbv zeta. now destruct Hsp as [-> | ->]. }
    split; [exact Hexit|].
    split; [intros B k; now apply bind_Exit|].
    split.
    { intros fuel m name rest Hr Hnull.
      cbn [for_each]. apply bind_Exit.
      cbn [run_makefile]. now rewrite Hr, Hnull. }
    split; [simpl; apply forked_trace|].
    intros Hrange. split; [lia|].
    rewrite Z.land_ones with (n := 8) by lia.
    change (2 ^ 8) with 256. rewrite Z.mod_small; lia.
  - intros e' Hsp. rewrite run_cmd_eq. cbv zeta. rewrite Hsp.
    unfold after_wait.
    now rewrite WIFEXITED_W_EXITCODE, WEXITSTATUS_W_EXITCODE.
Qed.

(** ** The build driver *)

Lemma run_makefile_S (fuel : nat) m (name : string) :
  run_makefile (S fuel) m name =
  match makefile_rule m name with
  | None => ret tt
  | Some tar_rule =>
      match rule_prereq tar_rule with
      | Some tar_prereq =>
          for_each (run_makefile fuel m) tar_prereq ;;
          b <- gets (fun p => arg_b (args p)) ;;
          if b =? 1
          then run_cmd tar_rule
          else check_prereqs m name tar_rule tar_prereq
      | None => run_cmd tar_rule
      end
  end.
Proof. reflexivity. Qed.

Lemma main_targets_eq (fuel : nat) m p :
  main_targets fuel m p =
  if c_tar (args p) =? 0
  then run_makefile fuel m (makefile_default_target m) p
  else for_each (run_makefile fuel m) (target (args p)) p.
Proof.
  unfold main_targets, bind, gets. now destruct (c_tar (args p) =? 0).
Qed.

Lemma main_eq (fuel : nat) m sa w :
  main fuel m sa w =
  match main_targets fuel m (started sa w) with
  | Ret _ p' => Exit (exitcode (args p')) p'
  | Exit code p' => Exit code p'
  | Overflow => Overflow
  end.
Proof.
  unfold main, started, boot.
  destruct (arg_s sa =? 1); reflexivity.
Qed.

(** C8: building a name the makefile has no rule for returns at once, in
    the process it was called in: nothing is written, no command is run,
    [start_args] is untouched, and the file system is not even consulted
    (the process is arbitrary, so the name need not be an existing file).
    As the only target of an invocation, the program ends with the exit
    code [start_args] held from the start. *)
Theorem run_makefile_no_rule (fuel : nat) m (name : string) p :
  makefile_rule m name = None ->
  run_makefile (S fuel) m name p = Ret tt p
  /\ forall sa w,
       c_tar sa <> 0 -> target sa = [name] ->
       main (S fuel) m sa w = Exit (exitcode sa) (started sa w).
Proof.
  intro Hno.
  assert (Hrun : forall q, run_makefile (S fuel) m name q = Ret tt q).
  { intro q. rewrite run_makefile_S. now rewrite Hno. }
  split; [apply Hrun|].
  intros sa w Hc Ht. rewrite main_eq, main_targets_eq.
  apply Z.eqb_neq in Hc. unfold started at 1 2. simpl args.
  rewrite Hc, Ht. simpl for_each. unfold bind. rewrite Hrun. reflexivity.
Qed.

(** The [else] branch of [run_makefile] (lines 254-257): for a rule whose
    prerequisite array is [NULL], building the target is one call of
    [run_cmd] on the rule, whatever the files on disk and whatever the
    force flag; the same holds for a rule with an empty prerequisite array
    when the force flag is set.  The call forks the rule's command. *)
Lemma run_makefile_null_prereq (fuel : nat) m (name : string) r p :
  makefile_rule m name = Some r ->
  rule_prereq r = None \/ (rule_prereq r = Some [] /\ arg_b (args p) = 1) ->
  run_makefile (S fuel) m name p = run_cmd r p
  /\ exists p',
       final (run_makefile (S fuel) m name p) = Some p'
       /\ commands (trace p') = commands (trace p) ++ [rule_cmd r].
Proof.
  intros Hr Hpre.
  assert (Hrun : run_makefile (S fuel) m name p = run_cmd r p).
  { rewrite run_makefile_S, Hr. destruct Hpre as [-> | [-> Hb]]; [reflexivity|].
    simpl. unfold bind, ret, gets. now rewrite Hb. }
  split; [exact Hrun|]. rewrite Hrun, run_cmd_eq. cbv zeta.
  destruct (spawned (rule_cmd r) p) as [e|e|e e'|status] eqn:Hsp;
    eexists; (split; [reflexivity|]);
    rewrite ?after_wait_trace; simpl;
    rewrite forked_trace, commands_app; reflexivity.
Qed.

(** C4 fails on the code: the test of [run_makefile] for a rule without
    prerequisites is [tar_prereq != NULL] alone (line 229).  For a rule
    whose prerequisite array is there but has no entry, with the force
    flag off, both loops run zero times and [run_cmd] is not called: the
    build returns in the process it was called in, [main] on that target
    exits with the [exitcode] it started with, and the rule's command is
    not run, where the [else] branch runs it. *)
Theorem run_makefile_empty_prereq (fuel : nat) m (name : string) r p :
  makefile_rule m name = Some r ->
  rule_prereq r = Some [] ->
  arg_b (args p) <> 1 ->
  run_makefile (S fuel) m name p = Ret tt p
  /\ (forall sa w,
        arg_b sa <> 1 -> c_tar sa <> 0 -> target sa = [name] ->
        main (S fuel) m sa w = Exit (exitcode sa) (started sa w)).
Proof.
  intros Hr Hpre Hb.
  assert (Hrun : forall q, arg_b (args q) <> 1 ->
                   run_makefile (S fuel) m name q = Ret tt q).
  { intros q Hq. rewrite run_makefile_S, Hr, Hpre. simpl.
    unfold bind, ret, gets. apply Z.eqb_neq in Hq. now rewrite Hq. }
  split; [now apply Hrun|].
  intros sa w Hsa Hc Ht.
  rewrite main_eq, main_targets_eq.
  apply Z.eqb_neq in Hc. unfold started at 1 2. simpl args.
  rewrite Hc, Ht. simpl for_each. unfold bind. now rewrite Hrun.
Qed.

(** ** Specifications through the driver *)

Lemma triple_ret {A} (a : A) (Q : A -> process -> Prop) E :
  triple (Q a) (ret a) Q E.
Proof. intros p Hp. exact Hp. Qed.

Lemma triple_bind {A B} (c : comp A) (k : A -> comp B) P Q R E :
  triple P c Q E ->
  (forall a, triple (Q a) (k a) R E) ->
  triple P (bind c k) R E.
Proof.
  intros Hc Hk p Hp. specialize (Hc p Hp). unfold bind.
  destruct (c p) as [a p'| |]; [apply Hk, Hc|exact Hc|exact I].
Qed.

Lemma triple_gets {A} (f : process -> A) (I : process -> Prop) E :
  triple I (gets f) (fun _ => I) E.
Proof. intros p Hp. exact Hp. Qed.

Lemma triple_for_each (f : string -> comp unit) (I : process -> Prop) E names :
  (forall x, In x names -> triple I (f x) (fun _ => I) E) ->
  triple I (for_each f names) (fun _ => I) E.
Proof.
  induction names as [|x rest IH]; intro Hf; simpl.
  - apply (triple_ret tt (fun _ => I)).
  - eapply triple_bind; [apply Hf; now left|].
    intros []. apply IH. intros y Hy. apply Hf. now right.
Qed.

Section Invariant.

(** An invariant [I] of the process that the command executor, the
    staleness oracle and the ghost verdicts keep is kept by the driver. *)
Variable I : process -> Prop.
Variable E : Z -> process -> Prop.
Variable m : makefile.
Hypothesis run_cmd_keeps : forall r, triple I (run_cmd r) (fun _ => I) E.
Hypothesis check_file_keeps :
  forall current prereq, triple I (check_file current prereq m) (fun _ => I) E.
Hypothesis verdict_keeps :
  forall current prereq verdict p,
    I p -> I (with_event (EvCheck current prereq verdict) p).

Lemma check_prereqs_keeps (current : string) r pres :
  triple I (check_prereqs m current r pres) (fun _ => I) E.
Proof.
  induction pres as [|pre rest IH]; simpl.
  - apply (triple_ret tt (fun _ => I)).
  - eapply triple_bind; [apply check_file_keeps|]. intro newer.
    eapply triple_bind with (Q := fun _ => I).
    { intros p Hp. now apply verdict_keeps. }
    intros []. eapply triple_bind; [|intros []; exact IH].
    destruct newer; [apply run_cmd_keeps|apply (triple_ret tt (fun _ => I))].
Qed.

Lemma run_makefile_keeps (fuel : nat) (name : string) :
  triple I (run_makefile fuel m name) (fun _ => I) E.
Proof.
  revert name. induction fuel as [|fuel IH]; intro name.
  - intros p _. exact Logic.I.
  - rewrite run_makefile_S.
    destruct (makefile_rule m name) as [r|];
      [|apply (triple_ret tt (fun _ => I))].
    destruct (rule_prereq r) as [pres|]; [|apply run_cmd_keeps].
    eapply triple_bind; [apply triple_for_each; intros; apply IH|].
    intros []. eapply triple_bind; [apply triple_gets|].
    intro b. destruct (b =? 1);
      [apply run_cmd_keeps|apply check_prereqs_keeps].
Qed.

Lemma main_targets_keeps (fuel : nat) :
  triple I (main_targets fuel m) (fun _ => I) E.
Proof.
  intros p Hp. rewrite main_targets_eq.
  destruct (c_tar (args p) =? 0).
  - now apply run_makefile_keeps.
  - apply triple_for_each; [|exact Hp].
    intros. apply run_makefile_keeps.
Qed.

End Invariant.

(** ** The exit code on record *)

Lemma recorded_snoc (code : Z) (tr : list event) (e : event) :
  recorded code (tr ++ [e]) = record_event (recorded code tr) e.
Proof. now rewrite recorded_app. Qed.

Lemma run_cmd_on_record (code : Z) r :
  triple (on_record code) (run_cmd r) (fun _ => on_record code)
         (fun _ _ => True).
Proof.
  intros p Hp. rewrite run_cmd_eq. cbv zeta.
  destruct (spawned (rule_cmd r) p) as [e|e|e e'|status] eqn:Hsp;
    try exact Logic.I; unfold on_record in *.
  - rewrite after_wait_trace. simpl trace.
    rewrite forked_trace, recorded_snoc, Hsp. simpl.
    unfold after_wait. rewrite WIFEXITED_W_EXITCODE. simpl. reflexivity.
  - rewrite after_wait_trace, forked_trace, recorded_snoc, Hsp. simpl.
    unfold after_wait. destruct (WIFEXITED status); simpl; [reflexivity|].
    now rewrite forked_args.
Qed.

Lemma check_file_frame (current prereq : string) m p :
  match check_file current prereq m p with
  | Ret _ p' => p' = p
  | Exit code p' => code = EXIT_FAILURE /\ p' = with_err [no_rule_line prereq] p
  | Overflow => False
  end.
Proof.
  unfold check_file.
  destruct (access (sys p) prereq); simpl.
  - destruct (access (sys p) current); simpl; [|reflexivity].
    now destruct (_ || _).
  - destruct (makefile_rule m prereq); [reflexivity|].
    unfold bind, eprintf, modify, exit. now split.
Qed.

Lemma check_file_on_record (code : Z) (current prereq : string) m :
  triple (on_record code) (check_file current prereq m)
         (fun _ => on_record code) (fun _ _ => True).
Proof.
  intros p Hp. pose proof (check_file_frame current prereq m p) as H.
  destruct (check_file current prereq m p); [now subst|exact Logic.I|exact Logic.I].
Qed.

Lemma main_targets_on_record (code : Z) (fuel : nat) m :
  triple (on_record code) (main_targets fuel m) (fun _ => on_record code)
         (fun _ _ => True).
Proof.
  apply main_targets_keeps.
  - apply run_cmd_on_record.
  - intros. apply check_file_on_record.
  - intros current prereq verdict p Hp. unfold on_record in *. simpl.
    now rewrite recorded_snoc.
Qed.




(** ** Termination *)


Lemma run_cmd_no_overflow r p : run_cmd r p <> Overflow.
Proof.
  rewrite run_cmd_eq. cbv zeta.
  destruct (spawned (rule_cmd r) p); discriminate.
Qed.

Lemma check_prereqs_no_overflow m (current : string) r pres p :
  check_prereqs m current r pres p <> Overflow.
Proof.
  revert p. induction pres as [|pre rest IH]; intro p; simpl.
  - discriminate.
  - unfold bind, modify.
    pose proof (check_file_frame current pre m p) as Hc.
    destruct (check_file current pre m p) as [newer p1| |];
      [|discriminate|contradiction].
    destruct newer.
    + pose proof (run_cmd_no_overflow r (with_event (EvCheck current pre true) p1)).
      destruct (run_cmd r _) as [[] p2| |];
        [apply IH|discriminate|contradiction].
    + apply IH.
Qed.





(** ** The staleness loop *)

Lemma stale_trace_checked (current : string) (exec_cmd : list string)
      pres evs :
  stale_trace current exec_cmd pres evs -> checked evs = pres.
Proof. induction 1; simpl; congruence. Qed.

Lemma stale_trace_commands (current : string) (exec_cmd : list string)
      pres evs :
  stale_trace current exec_cmd pres evs ->
  commands evs = repeat exec_cmd (stale_count evs).
Proof. induction 1; simpl; congruence. Qed.

Lemma run_cmd_trace r p :
  match run_cmd r p with
  | Ret _ p' | Exit _ p' =>
      trace p' = trace p ++ [EvRun (rule_cmd r) (spawned (rule_cmd r) p)]
  | Overflow => False
  end.
Proof.
  rewrite run_cmd_eq. cbv zeta.
  destruct (spawned (rule_cmd r) p) eqn:Hsp;
    rewrite ?after_wait_trace; simpl; now rewrite forked_trace, Hsp.
Qed.

Lemma check_prereqs_stale_trace m (current : string) r pres p p' :
  check_prereqs m current r pres p = Ret tt p' ->
  exists evs,
    trace p' = trace p ++ evs
    /\ stale_trace current (rule_cmd r) pres evs.
Proof.
  revert p. induction pres as [|pre rest IH]; intros p Hrun; simpl in Hrun.
  - injection Hrun as <-. exists []. split; [now rewrite app_nil_r|constructor].
  - unfold bind at 1 in Hrun.
    pose proof (check_file_frame current pre m p) as Hc.
    destruct (check_file current pre m p) as [newer p1| |];
      [subst p1|discriminate|contradiction].
    unfold bind at 1, modify at 1 in Hrun. unfold bind at 1 in Hrun.
    destruct newer.
    + pose proof (run_cmd_trace r (with_event (EvCheck current pre true) p)) as Ht.
      destruct (run_cmd r _) as [[] p2| |]; [|discriminate|contradiction].
      destruct (IH _ Hrun) as (evs & Htr & Hshape).
      exists (EvCheck current pre true
              :: EvRun (rule_cmd r)
                   (spawned (rule_cmd r) (with_event (EvCheck current pre true) p))
              :: evs).
      split; [|now constructor].
      rewrite Htr, Ht. simpl. now rewrite <- !app_assoc.
    + unfold ret in Hrun.
      destruct (IH _ Hrun) as (evs & Htr & Hshape).
      exists (EvCheck current pre false :: evs).
      split; [|now constructor].
      rewrite Htr. simpl. now rewrite <- app_assoc.
Qed.

Lemma run_makefile_arg_b (b : Z) (fuel : nat) m (name : string) :
  triple (fun p => arg_b (args p) = b) (run_makefile fuel m name)
         (fun _ p => arg_b (args p) = b) (fun _ _ => True).
Proof.
  apply run_makefile_keeps.
  - intros r p Hp. rewrite run_cmd_eq. cbv zeta.
    destruct (spawned (rule_cmd r) p); try exact I;
      unfold after_wait; destruct (WIFEXITED _); simpl;
      now rewrite forked_args.
  - intros current prereq p Hp.
    pose proof (check_file_frame current prereq m p) as H.
    destruct (check_file current prereq m p); [now subst|exact I|exact I].
  - intros current prereq verdict p Hp. exact Hp.
Qed.

(** With the force flag off, a visit of a rule with a prerequisite array
    builds the prerequisites and then runs the staleness loop over them. *)
Lemma run_makefile_visit (fuel : nat) m (name : string) r pres p p1 :
  makefile_rule m name = Some r ->
  rule_prereq r = Some pres ->
  arg_b (args p) <> 1 ->
  for_each (run_makefile fuel m) pres p = Ret tt p1 ->
  run_makefile (S fuel) m name p = check_prereqs m name r pres p1.
Proof.
  intros Hr Hpre Hb Hfe. rewrite run_makefile_S, Hr, Hpre.
  unfold bind at 1. rewrite Hfe. unfold bind, gets.
  assert (Hb1 : arg_b (args p1) = arg_b (args p)).
  { pose proof (triple_for_each (run_makefile fuel m)
                  (fun q => arg_b (args q) = arg_b (args p))
                  (fun _ _ => True) pres
                  (fun x _ => run_makefile_arg_b _ fuel m x) p eq_refl) as H.
    now rewrite Hfe in H. }
  rewrite Hb1. apply Z.eqb_neq in Hb. now rewrite Hb.
Qed.

(** The case the design note of the loop is about: a command that leaves
    the files alone, a target that exists and prerequisites that are all
    newer.  The command is run once per prerequisite. *)
Lemma check_prereqs_all_newer m (current : string) r pres p :
  (forall open w,
     (exists status, fst (spawn open w (rule_cmd r)) = Terminated status)
     /\ forall path,
          access (snd (spawn open w (rule_cmd r))) path = access w path
          /\ st_mtime (snd (spawn open w (rule_cmd r))) path = st_mtime w path) ->
  access (sys p) current = true ->
  (forall pre, In pre pres ->
     access (sys p) pre = true
     /\ st_mtime (sys p) current < st_mtime (sys p) pre) ->
  exists p',
    check_prereqs m current r pres p = Ret tt p'
    /\ commands (trace p') =
       commands (trace p) ++ repeat (rule_cmd r) (List.length pres).
Proof.
  intro Hcmd. revert p.
  induction pres as [|pre rest IH]; intros p Hcur Hnewer.
  - exists p. split; [reflexivity|]. simpl. now rewrite app_nil_r.
  - destruct (Hnewer pre (or_introl eq_refl)) as [Hpre Hlt].
    pose proof (check_file_both_exist current pre m p Hpre Hcur) as Hex.
    apply Z.ltb_lt in Hlt. rewrite Hlt in Hex.
    simpl. unfold bind at 1. rewrite Hex.
    unfold bind at 1, modify at 1. unfold bind at 1.
    set (p1 := with_event (EvCheck current pre true) p).
    destruct (Hcmd (stdout_open p1) (sys p1)) as [[status Hst] Hfiles].
    rewrite run_cmd_eq. cbv zeta. unfold spawned. rewrite Hst.
    set (p2 := after_wait status (forked (rule_cmd r) p1)).
    assert (Hsys : sys p2 = snd (spawn (stdout_open p1) (sys p1) (rule_cmd r))).
    { unfold p2. rewrite after_wait_sys. unfold forked.
      now destruct (spawn (stdout_open p1) (sys p1) (rule_cmd r)). }
    destruct (IH p2) as (p' & Hrun & Hc).
    + rewrite Hsys. destruct (Hfiles current) as [-> _]. exact Hcur.
    + intros q Hq. rewrite Hsys.
      destruct (Hfiles q) as [-> ->]. destruct (Hfiles current) as [_ ->].
      apply Hnewer. now right.
    + exists p'. split; [exact Hrun|].
      rewrite Hc. unfold p2. rewrite after_wait_trace, forked_trace.
      unfold p1. simpl trace. rewrite !commands_app. simpl.
      now rewrite <- !app_assoc.
Qed.

(** A pass of the loop returns exactly when it can be told step by step,
    each verdict being the oracle's answer at its step. *)
Lemma check_prereqs_pass m (current : string) r pres p q :
  check_prereqs m current r pres p = Ret tt q ->
  exists k, stale_pass m current r pres p k q.
Proof.
  revert p. induction pres as [|pre rest IH]; intros p Hrun; simpl in Hrun.
  - injection Hrun as <-. exists O. constructor.
  - unfold bind at 1 in Hrun.
    pose proof (check_file_frame current pre m p) as Hc.
    destruct (check_file current pre m p) as [newer p1| |] eqn:Hcheck;
      [subst p1|discriminate|contradiction].
    unfold bind at 1, modify at 1 in Hrun. unfold bind at 1 in Hrun.
    destruct newer.
    + destruct (run_cmd r _) as [[] p2| |] eqn:Hcmd; try discriminate.
      destruct (IH _ Hrun) as (k & Hk).
      exists (S k). eapply pass_stale; eassumption.
    + unfold ret in Hrun. destruct (IH _ Hrun) as (k & Hk).
      exists k. now apply pass_fresh.
Qed.

Lemma pass_check_prereqs m (current : string) r pres p (k : nat) q :
  stale_pass m current r pres p k q ->
  check_prereqs m current r pres p = Ret tt q.
Proof.
  induction 1 as [p|pre rest p k q Hc _ IH|pre rest p p1 k q Hc Hcmd _ IH];
    simpl.
  - reflexivity.
  - unfold bind at 1. rewrite Hc.
    unfold bind at 1, modify at 1. unfold bind at 1, ret at 1. exact IH.
  - unfold bind at 1. rewrite Hc.
    unfold bind at 1, modify at 1. unfold bind at 1. rewrite Hcmd. exact IH.
Qed.

Lemma stale_pass_trace m (current : string) r pres p (k : nat) q :
  stale_pass m current r pres p k q ->
  exists evs,
    trace q = trace p ++ evs
    /\ stale_trace current (rule_cmd r) pres evs
    /\ stale_count evs = k.
Proof.
  induction 1 as [p|pre rest p k q Hc _ IH|pre rest p p1 k q Hc Hcmd _ IH].
  - exists []. split; [now rewrite app_nil_r|]. split; [constructor|reflexivity].
  - destruct IH as (evs & Htr & Hshape & Hk).
    exists (EvCheck current pre false :: evs).
    split; [|split; [now constructor|exact Hk]].
    rewrite Htr. simpl. now rewrite <- app_assoc.
  - destruct IH as (evs & Htr & Hshape & Hk).
    pose proof (run_cmd_trace r (with_event (EvCheck current pre true) p))
      as Ht.
    rewrite Hcmd in Ht.
    exists (EvCheck current pre true
            :: EvRun (rule_cmd r)
                 (spawned (rule_cmd r)
                    (with_event (EvCheck current pre true) p))
            :: evs).
    split; [|split; [now constructor|simpl; now rewrite Hk]].
    rewrite Htr, Ht. simpl. now rewrite <- !app_assoc.
Qed.

(** C5, as the program has it: with the force flag off, a visit of a
    rule with a prerequisite array first builds the prerequisites and then
    runs the staleness loop over them.  A pass of the loop returns exactly
    as it is told step by step: for each prerequisite, in the order of the
    array, the oracle is asked in the process as the runs before left it,
    and the rule's command is run once after an answer "newer" and not
    after an answer "not newer".  Such a pass leaves in the trace one
    verdict per prerequisite and one run right after each verdict "newer":
    as many runs as there were such verdicts.  When the command leaves the
    files alone, a target that exists and has k prerequisites, all newer,
    gets its command run k times. *)
Theorem check_prereqs_once_per_stale (fuel : nat) m (name : string) r pres p :
  makefile_rule m name = Some r ->
  rule_prereq r = Some pres ->
  arg_b (args p) <> 1 ->
  (forall p1,
     for_each (run_makefile fuel m) pres p = Ret tt p1 ->
     run_makefile (S fuel) m name p = check_prereqs m name r pres p1)
  /\ (forall p1 q,
        check_prereqs m name r pres p1 = Ret tt q <->
        exists k, stale_pass m name r pres p1 k q)
  /\ (forall p1 k q,
        stale_pass m name r pres p1 k q ->
        exists evs,
          trace q = trace p1 ++ evs
          /\ stale_trace name (rule_cmd r) pres evs
          /\ checked evs = pres
          /\ stale_count evs = k
          /\ commands evs = repeat (rule_cmd r) k)
  /\ ((forall open w,
         (exists status, fst (spawn open w (rule_cmd r)) = Terminated status)
         /\ forall path,
              access (snd (spawn open w (rule_cmd r))) path = access w path
              /\ st_mtime (snd (spawn open w (rule_cmd r))) path
                 = st_mtime w path) ->
      forall p1,
        access (sys p1) name = true ->
        (forall pre, In pre pres ->
           access (sys p1) pre = true
           /\ st_mtime (sys p1) name < st_mtime (sys p1) pre) ->
        exists q,
          check_prereqs m name r pres p1 = Ret tt q
          /\ stale_pass m name r pres p1 (List.length pres) q
          /\ commands (trace q) =
             commands (trace p1) ++ repeat (rule_cmd r) (List.length pres)).
Proof.
  intros Hr Hpre Hb. split; [|split; [|split]].
  - intros p1 Hfe. now apply run_makefile_visit.
  - intros p1 q. split; [apply check_prereqs_pass|].
    intros [k Hk]. eapply pass_check_prereqs, Hk.
  - intros p1 k q Hpass.
    destruct (stale_pass_trace _ _ _ _ _ _ _ Hpass) as (evs & Htr & Hs & Hk).
    exists evs. split; [exact Htr|]. split; [exact Hs|].
    split; [eapply stale_trace_checked, Hs|]. split; [exact Hk|].
    rewrite <- Hk. eapply stale_trace_commands, Hs.
  - intros Hcmd p1 Hcur Hnewer.
    destruct (check_prereqs_all_newer m name r pres p1 Hcmd Hcur Hnewer)
      as (q & Hrun & Hc).
    exists q. split; [exact Hrun|]. split; [|exact Hc].
    destruct (check_prereqs_pass _ _ _ _ _ _ Hrun) as (k & Hk).
    destruct (stale_pass_trace _ _ _ _ _ _ _ Hk) as (evs & Htr & Hs & Hn).
    assert (Hlen : k = List.length pres).
    { rewrite Htr, commands_app in Hc. apply app_inv_head in Hc.
      rewrite (stale_trace_commands _ _ _ _ Hs), Hn in Hc.
      apply (f_equal (@List.length _)) in Hc.
      now rewrite !repeat_length in Hc. }
    now rewrite <- Hlen.
Qed.

(** ** The quiet flag *)

Lemma quiet_eq_refl p : quiet_eq p p.
Proof. now repeat split. Qed.

Lemma quiet_eq_with_err lines p1 p2 :
  quiet_eq p1 p2 -> quiet_eq (with_err lines p1) (with_err lines p2).
Proof.
  intros (Ha & Hs & He & Ht). unfold quiet_eq. simpl.
  now rewrite Ha, Hs, He, Ht.
Qed.

Lemma quiet_eq_with_event e p1 p2 :
  quiet_eq p1 p2 -> quiet_eq (with_event e p1) (with_event e p2).
Proof.
  intros (Ha & Hs & He & Ht). unfold quiet_eq. simpl.
  now rewrite Ha, Hs, He, Ht.
Qed.

Lemma quiet_eq_after_wait status p1 p2 :
  quiet_eq p1 p2 -> quiet_eq (after_wait status p1) (after_wait status p2).
Proof.
  intros (Ha & Hs & He & Ht). unfold after_wait.
  destruct (WIFEXITED status); [|now repeat split].
  unfold quiet_eq. simpl. rewrite Hs, He, Ht. repeat split.
  unfold set_arg_s, set_exitcode in *. simpl.
  injection Ha as Hb Hn Hc _ Hm Hg. now rewrite Hb, Hn, Hc, Hm, Hg.
Qed.

Lemma blind_ret {A} (a : A) : blind (ret (world := world) a).
Proof. intros p1 p2 H. now split. Qed.

Lemma blind_bind {A B} (c : comp A) (k : A -> comp B) :
  blind c -> (forall a, blind (k a)) -> blind (bind c k).
Proof.
  intros Hc Hk p1 p2 H. specialize (Hc p1 p2 H). unfold bind.
  destruct (c p1) as [a1 q1|c1 q1|], (c p2) as [a2 q2|c2 q2|];
    simpl in Hc; try contradiction; try exact Hc.
  destruct Hc as [<- Hq]. now apply Hk.
Qed.

Lemma blind_for_each (f : string -> comp unit) names :
  (forall x, blind (f x)) -> blind (for_each f names).
Proof.
  intro Hf. induction names as [|x rest IH]; simpl.
  - apply blind_ret.
  - apply blind_bind; [apply Hf|intros []; exact IH].
Qed.

Lemma blind_check_file (current prereq : string) m :
  blind (check_file current prereq m).
Proof.
  intros p1 p2 H. pose proof H as (_ & Hs & _).
  unfold check_file. rewrite Hs.
  destruct (access (sys p2) prereq); simpl.
  - destruct (access (sys p2) current); simpl; [|now split].
    destruct (_ || _); now split.
  - destruct (makefile_rule m prereq); [now split|].
    unfold bind, eprintf, modify, exit. split; [reflexivity|].
    now apply quiet_eq_with_err.
Qed.

Section StdoutBlind.

(** The programs that are run behave the same whether or not descriptor 1
    is open. *)
Hypothesis stdout_blind :
  forall (open : bool) (w : world) (argv : list string),
    spawn open w argv = spawn true w argv.

Lemma blind_forked (exec_cmd : list string) p1 p2 :
  quiet_eq p1 p2 ->
  spawned exec_cmd p1 = spawned exec_cmd p2
  /\ quiet_eq (forked exec_cmd p1) (forked exec_cmd p2).
Proof.
  intros (Ha & Hs & He & Ht). unfold spawned, forked.
  rewrite (stdout_blind (stdout_open p1)), (stdout_blind (stdout_open p2)), Hs.
  split; [reflexivity|].
  destruct (spawn true (sys p2) exec_cmd) as [res w'].
  unfold quiet_eq. simpl.
  now rewrite !echo_args, !echo_err, !echo_trace, Ha, He, Ht.
Qed.

Lemma blind_run_cmd r : blind (run_cmd r).
Proof.
  intros p1 p2 H. rewrite !run_cmd_eq. cbv zeta.
  destruct (blind_forked (rule_cmd r) p1 p2 H) as [-> Hf].
  pose proof Hf as (_ & Hs & _).
  destruct (spawned (rule_cmd r) p2); simpl; split;
    try reflexivity; try (now rewrite Hs);
    auto using quiet_eq_with_err, quiet_eq_after_wait.
Qed.

Lemma blind_check_prereqs m (current : string) r pres :
  blind (check_prereqs m current r pres).
Proof.
  induction pres as [|pre rest IH]; simpl.
  - apply blind_ret.
  - apply blind_bind; [apply blind_check_file|]. intro newer.
    apply blind_bind.
    { intros p1 p2 H. split; [reflexivity|now apply quiet_eq_with_event]. }
    intros []. apply blind_bind; [|intros []; exact IH].
    destruct newer; [apply blind_run_cmd|apply blind_ret].
Qed.

Lemma blind_run_makefile (fuel : nat) m (name : string) :
  blind (run_makefile fuel m name).
Proof.
  revert name. induction fuel as [|fuel IH]; intro name.
  - intros p1 p2 _. exact I.
  - rewrite run_makefile_S.
    destruct (makefile_rule m name) as [r|]; [|apply blind_ret].
    destruct (rule_prereq r) as [pres|]; [|apply blind_run_cmd].
    apply blind_bind; [apply blind_for_each, IH|]. intros [].
    intros p1 p2 H. unfold bind, gets.
    assert (Hb : arg_b (args p1) = arg_b (args p2)).
    { destruct H as (Ha & _). now injection Ha. }
    rewrite Hb. destruct (arg_b (args p2) =? 1).
    + now apply blind_run_cmd.
    + now apply blind_check_prereqs.
Qed.

Lemma blind_main_targets (fuel : nat) m : blind (main_targets fuel m).
Proof.
  intros p1 p2 H. rewrite !main_targets_eq.
  assert (Hc : c_tar (args p1) = c_tar (args p2))
    by (destruct H as (Ha & _); now injection Ha).
  assert (Ht : target (args p1) = target (args p2))
    by (destruct H as (Ha & _); now injection Ha).
  rewrite Hc, Ht. destruct (c_tar (args p2) =? 0).
  - now apply blind_run_makefile.
  - apply blind_for_each; [|exact H]. intro x. apply blind_run_makefile.
Qed.

(** C9, as the program has it: [-s] closes [stdout], and the commands
    inherit the closed descriptor.  When the commands behave the same with
    descriptor 1 closed as with it open, two runs that differ in the quiet
    flag only end the same way: both overflow the stack, or both exit, with
    the same exit code, the same trace (the same verdicts and the same
    commands with the same results, in the same order), the same world and
    the same stderr. *)
Theorem quiet_flag_noninterference (fuel : nat) m sa w (s1 s2 : Z) :
  same_run (main fuel m (set_arg_s s1 sa) w)
           (main fuel m (set_arg_s s2 sa) w).
Proof.
  rewrite !main_eq.
  assert (H : quiet_eq (started (set_arg_s s1 sa) w)
                       (started (set_arg_s s2 sa) w))
    by now repeat split.
  pose proof (blind_main_targets fuel m _ _ H) as Hrun.
  destruct (main_targets fuel m (started (set_arg_s s1 sa) w)) as [[] q1|c1 q1|],
           (main_targets fuel m (started (set_arg_s s2 sa) w)) as [[] q2|c2 q2|];
    simpl in Hrun; try contradiction; try exact Hrun.
  destruct Hrun as [_ Hq]. split; [|exact Hq].
  destruct Hq as (Ha & _). now injection Ha.
Qed.

End StdoutBlind.

End Properties.

(** * More on the build driver *)

Section Builds.

Context {makefile rule world : Type} {PR : Parser makefile rule} {SYS : OS world}.

Notation "x <- c ;; k" := (bind c (fun x => k))
  (at level 61, c at next level, right associativity).
Notation "c ;; k" := (bind c (fun _ => k))
  (at level 61, right associativity).

Local Abbreviation process := (proc (world := world)).
Local Abbreviation comp := (M (world := world)).
Implicit Types (p q : process) (m : makefile) (r : rule).

(** ** What the driver leaves alone *)

Lemma extends_refl p : extends p p.
Proof.
  repeat split; try (exists []; now rewrite app_nil_r).
Qed.

Lemma commands_nil_app (e1 e2 : list event) :
  commands (e1 ++ e2) = [] -> commands e1 = [] /\ commands e2 = [].
Proof. rewrite commands_app. apply app_eq_nil. Qed.

Lemma extends_trans p q q' : extends p q -> extends q q' -> extends p q'.
Proof.
  intros (Ha & Ho & [o1 Hout] & [e1 Herr] & [t1 [Htr Hq]])
         (Ha' & Ho' & [o2 Hout'] & [e2 Herr'] & [t2 [Htr' Hq']]).
  split; [congruence|]. split; [congruence|].
  split; [exists (o1 ++ o2); now rewrite Hout', Hout, app_assoc|].
  split; [exists (e1 ++ e2); now rewrite Herr', Herr, app_assoc|].
  exists (t1 ++ t2). split; [now rewrite Htr', Htr, app_assoc|].
  intro Hc. apply commands_nil_app in Hc. destruct Hc as [Hc1 Hc2].
  destruct (Hq Hc1) as (Hs & Hg & Hu). destruct (Hq' Hc2) as (Hs' & Hg' & Hu').
  repeat split; congruence.
Qed.

Lemma extends_with_err lines p : extends p (with_err lines p).
Proof.
  repeat split; simpl.
  - exists []. now rewrite app_nil_r.
  - now exists lines.
  - exists []. now rewrite app_nil_r.
Qed.

Lemma extends_verdict (current prereq : string) (verdict : bool) p :
  extends p (with_event (EvCheck current prereq verdict) p).
Proof.
  repeat split; simpl; try (exists []; now rewrite app_nil_r).
  now exists [EvCheck current prereq verdict].
Qed.

Lemma after_wait_args (status : Z) p :
  set_exitcode 0 (args (after_wait status p)) = set_exitcode 0 (args p).
Proof. unfold after_wait. now destruct (WIFEXITED status). Qed.

Lemma extends_forked (exec_cmd : list string) p :
  extends p (forked exec_cmd p).
Proof.
  split; [now rewrite forked_args|]. split; [apply forked_stdout_open|].
  split.
  { rewrite forked_out. unfold echo.
    destruct (stdout_open p);
      [now exists (echo_words exec_cmd)|exists []; now rewrite app_nil_r]. }
  split; [exists []; now rewrite forked_err, app_nil_r|].
  exists [EvRun exec_cmd (spawned exec_cmd p)].
  split; [apply forked_trace|discriminate].
Qed.

Lemma extends_after_wait (status : Z) p q :
  extends p q ->
  (exists evs, trace q = trace p ++ evs /\ commands evs <> []) ->
  extends p (after_wait status q).
Proof.
  intros (Ha & Ho & Hout & Herr & _) (evs & Htr & Hne).
  split; [now rewrite after_wait_args|].
  split; [now rewrite after_wait_stdout_open|].
  split; [now rewrite after_wait_out|].
  split; [now rewrite after_wait_err|].
  exists evs. rewrite after_wait_trace. split; [exact Htr|].
  intro H. contradiction.
Qed.

Lemma run_cmd_extends r p :
  match run_cmd r p with
  | Ret _ q | Exit _ q => extends p q
  | Overflow => False
  end.
Proof.
  assert (Hf := extends_forked (rule_cmd r) p).
  assert (Hfe : forall lines,
             extends p (with_err lines (forked (rule_cmd r) p)))
    by (intro lines; eapply extends_trans; [exact Hf|apply extends_with_err]).
  assert (Hev : forall lines,
             exists evs,
               trace (with_err lines (forked (rule_cmd r) p)) = trace p ++ evs
               /\ commands evs <> []).
  { intro lines. exists [EvRun (rule_cmd r) (spawned (rule_cmd r) p)].
    split; [apply forked_trace|discriminate]. }
  rewrite run_cmd_eq. cbv zeta.
  destruct (spawned (rule_cmd r) p) as [e|e|e e'|status]; try apply Hfe.
  - apply extends_after_wait; [apply Hfe|apply Hev].
  - apply extends_after_wait; [exact Hf|].
    exists [EvRun (rule_cmd r) (spawned (rule_cmd r) p)].
    split; [apply forked_trace|discriminate].
Qed.

Lemma check_file_extends (current prereq : string) m p :
  match check_file current prereq m p with
  | Ret _ q | Exit _ q => extends p q
  | Overflow => False
  end.
Proof.
  pose proof (check_file_frame current prereq m p) as H.
  destruct (check_file current prereq m p) as [b q|code q|];
    [subst q; apply extends_refl| |exact H].
  destruct H as [_ ->]. apply extends_with_err.
Qed.

Lemma run_makefile_extends (fuel : nat) m (name : string) p0 :
  triple (extends p0) (run_makefile fuel m name)
         (fun _ => extends p0) (fun _ => extends p0).
Proof.
  apply run_makefile_keeps.
  - intros r p Hp. pose proof (run_cmd_extends r p) as H.
    destruct (run_cmd r p); eauto using extends_trans.
  - intros current prereq p Hp.
    pose proof (check_file_extends current prereq m p) as H.
    destruct (check_file current prereq m p); eauto using extends_trans.
  - intros current prereq verdict p Hp.
    eapply extends_trans; [exact Hp|apply extends_verdict].
Qed.

(** X1: wherever a build ends, by return or by [exit], the flags and the
    target list of [start_args] are what they were and [stdout] is open or
    closed as before; stdout, stderr and the trace have only been added
    to; and when no command was forked on the way, the world, the whole of
    [start_args] and stdout are unchanged: the driver itself writes no
    file. *)
Theorem build_leaves_alone (fuel : nat) m (name : string) p q :
  final (run_makefile fuel m name p) = Some q ->
  extends p q.
Proof.
  intro Hfin.
  pose proof (run_makefile_extends fuel m name p p (extends_refl p)) as H.
  destruct (run_makefile fuel m name p) as [[] q'|code q'|];
    [| |discriminate]; injection Hfin as <-; exact H.
Qed.

(** ** Ending, and not ending *)


Lemma for_each_returns (f : string -> comp unit) names p q (x : string) :
  for_each f names p = Ret tt q ->
  In x names ->
  exists p1 q1, f x p1 = Ret tt q1.
Proof.
  revert p. induction names as [|y rest IH]; intros p Hrun Hin.
  - destruct Hin.
  - simpl in Hrun. unfold bind in Hrun.
    destruct (f y p) as [[] p1| |] eqn:Hy; try discriminate.
    destruct Hin as [<-|Hin]; [eauto|eapply IH; eassumption].
Qed.

(** X3: the driver has no cycle check.  A target on a dependency cycle,
    or one that leads into a cycle, is never built to the end: with
    whatever stack, the build does not return; it recurses until the stack
    is used up, unless a fatal error ends the program first. *)
Theorem cyclic_build_never_returns m (trapped : string -> Prop)
        (fuel : nat) (name : string) p :
  cyclic m trapped ->
  trapped name ->
  run_makefile fuel m name p = Overflow
  \/ exists code q, run_makefile fuel m name p = Exit code q.
Proof.
  intros Hcyc Hin.
  assert (Hnever : forall n x p1 q1,
             trapped x -> run_makefile n m x p1 <> Ret tt q1).
  { induction n as [|n IH]; intros x p1 q1 Hx; [discriminate|].
    destruct (Hcyc x Hx) as (r & pres & pre & Hr & Hp & Hpre & Htr).
    rewrite run_makefile_S, Hr, Hp. unfold bind at 1.
    destruct (for_each (run_makefile n m) pres p1) as [[] p2| |] eqn:Hfe;
      try discriminate.
    destruct (for_each_returns _ _ _ _ pre Hfe Hpre) as (p3 & q3 & Hret).
    exfalso. exact (IH pre p3 q3 Htr Hret). }
  destruct (run_makefile fuel m name p) as [[] q|code q|] eqn:Hrun; eauto.
  exfalso. exact (Hnever fuel name p q Hin Hrun).
Qed.

(** ** The force flag *)

Lemma run_cmd_returned r p q :
  run_cmd r p = Ret tt q ->
  args q = args p \/ (exists code, args q = set_exitcode code (args p)).
Proof.
  intro Hrun. rewrite run_cmd_eq in Hrun. cbv zeta in Hrun.
  destruct (spawned (rule_cmd r) p); try discriminate;
    injection Hrun as <-; unfold after_wait;
    destruct (WIFEXITED _); simpl; rewrite forked_args; eauto.
Qed.

Lemma run_cmd_commands r p :
  match run_cmd r p with
  | Ret _ q | Exit _ q =>
      commands (trace q) = commands (trace p) ++ [rule_cmd r]
      /\ checked (trace q) = checked (trace p)
  | Overflow => False
  end.
Proof.
  pose proof (run_cmd_trace r p) as H.
  destruct (run_cmd r p); try exact H; rewrite H, commands_app;
    (split; [reflexivity|]);
    clear; induction (trace p) as [|[c x v|argv res] tr IH]; simpl;
    congruence.
Qed.

Lemma run_cmd_exit r p (code : Z) q :
  run_cmd r p = Exit code q -> spawn_failed code q.
Proof.
  intro Hrun. pose proof (run_cmd_trace r p) as Ht. rewrite Hrun in Ht.
  rewrite run_cmd_eq in Hrun. cbv zeta in Hrun.
  destruct (spawned (rule_cmd r) p) as [e|e|e e'|status]; try discriminate;
    injection Hrun as <- <-; exists (trace p), (rule_cmd r), e;
    (split; [|reflexivity]); [left|right]; exact Ht.
Qed.

Lemma forced_build (fuel : nat) m :
  forall (name : string) p,
    arg_b (args p) = 1 ->
    match run_makefile fuel m name p with
    | Ret _ q =>
        arg_b (args q) = 1
        /\ commands (trace q) = commands (trace p) ++ plan fuel m name
        /\ checked (trace q) = checked (trace p)
    | Exit code q =>
        spawn_failed code q /\ checked (trace q) = checked (trace p)
    | Overflow => True
    end.
Proof.
  induction fuel as [|fuel IH]; intros name p Hb; [exact I|].
  rewrite run_makefile_S. simpl plan.
  destruct (makefile_rule m name) as [r|].
  2: { unfold ret. now rewrite app_nil_r. }
  assert (Hcmd : forall p1,
             arg_b (args p1) = 1 ->
             match run_cmd r p1 with
             | Ret _ q =>
                 arg_b (args q) = 1
                 /\ commands (trace q) = commands (trace p1) ++ [rule_cmd r]
                 /\ checked (trace q) = checked (trace p1)
             | Exit code q =>
                 spawn_failed code q /\ checked (trace q) = checked (trace p1)
             | Overflow => True
             end).
  { intros p1 Hb1. pose proof (run_cmd_commands r p1) as Hc.
    destruct (run_cmd r p1) as [[] q|code q|] eqn:Hrun; [|
      |contradiction].
    - split; [|exact Hc].
      destruct (run_cmd_returned _ _ _ Hrun) as [->|[c ->]]; exact Hb1.
    - split; [eapply run_cmd_exit; eassumption|apply Hc]. }
  destruct (rule_prereq r) as [pres|]; [|now apply Hcmd].
  assert (Hloop : forall names p1,
             arg_b (args p1) = 1 ->
             match for_each (run_makefile fuel m) names p1 with
             | Ret _ q =>
                 arg_b (args q) = 1
                 /\ commands (trace q)
                    = commands (trace p1) ++ flat_map (plan fuel m) names
                 /\ checked (trace q) = checked (trace p1)
             | Exit code q =>
                 spawn_failed code q /\ checked (trace q) = checked (trace p1)
             | Overflow => True
             end).
  { induction names as [|x rest IHn]; intros p1 Hb1; simpl.
    - unfold ret. now rewrite app_nil_r.
    - unfold bind. specialize (IH x p1 Hb1).
      destruct (run_makefile fuel m x p1) as [[] p2|code p2|];
        [|exact IH|exact I].
      destruct IH as (Hb2 & Hc2 & Hk2). specialize (IHn p2 Hb2).
      destruct (for_each (run_makefile fuel m) rest p2) as [[] p3|code p3|];
        [|split; [apply IHn|destruct IHn; congruence]|exact I].
      destruct IHn as (Hb3 & Hc3 & Hk3).
      split; [exact Hb3|]. split; [|congruence].
      now rewrite Hc3, Hc2, app_assoc. }
  unfold bind at 1. specialize (Hloop pres p Hb).
  destruct (for_each (run_makefile fuel m) pres p) as [[] p1|code p1|];
    [|exact Hloop|exact I].
  destruct Hloop as (Hb1 & Hc1 & Hk1).
  unfold bind, gets. rewrite Hb1. simpl.
  specialize (Hcmd p1 Hb1).
  destruct (run_cmd r p1) as [[] q|code q|]; [| |exact I].
  - destruct Hcmd as (Hbq & Hcq & Hkq). split; [exact Hbq|].
    split; [|congruence]. now rewrite Hcq, Hc1, app_assoc.
  - destruct Hcmd. split; [assumption|congruence].
Qed.

(** X4: under the force flag a build that returns has run, after what
    was run before, exactly the commands of the dependency tree below the
    target: the prerequisites' first, in declaration order, the rule's own
    last, once for every path that leads to a rule. *)
Theorem forced_build_runs_the_plan (fuel : nat) m (name : string) p q :
  arg_b (args p) = 1 ->
  run_makefile fuel m name p = Ret tt q ->
  commands (trace q) = commands (trace p) ++ plan fuel m name.
Proof.
  intros Hb Hrun. pose proof (forced_build fuel m name p Hb) as H.
  rewrite Hrun in H. apply H.
Qed.

(** X5: under the force flag the staleness oracle is never asked, so a
    prerequisite that is neither a file nor the target of a rule goes
    unnoticed: wherever the build ends there is no new verdict in the
    trace, and if it ends by [exit], a failed [fork] or [waitpid] was the
    last thing that happened and its [errno] is the exit code. *)
Theorem forced_build_asks_no_oracle (fuel : nat) m (name : string) p q :
  arg_b (args p) = 1 ->
  final (run_makefile fuel m name p) = Some q ->
  checked (trace q) = checked (trace p)
  /\ forall code, run_makefile fuel m name p = Exit code q ->
       spawn_failed code q.
Proof.
  intros Hb Hfin. pose proof (forced_build fuel m name p Hb) as H.
  destruct (run_makefile fuel m name p) as [[] q'|code q'|];
    [| |discriminate]; injection Hfin as <-.
  - split; [apply H|discriminate].
  - split; [apply H|]. intros c [= <-]. apply H.
Qed.

(** ** What is written to stdout *)

Lemma append_assoc (a b c : string) :
  ((a ++ b) ++ c = a ++ (b ++ c))%string.
Proof. induction a as [|x a IH]; simpl; [reflexivity|now rewrite IH]. Qed.

Lemma append_nil_r (a : string) : (a ++ "" = a)%string.
Proof. induction a as [|x a IH]; simpl; [reflexivity|now rewrite IH]. Qed.

Lemma text_app (xs ys : list string) :
  text (xs ++ ys) = (text xs ++ text ys)%string.
Proof.
  induction xs as [|x xs IH]; simpl; [reflexivity|].
  now rewrite IH, append_assoc.
Qed.

Lemma text_echo_words (exec_cmd : list string) :
  text (echo_words exec_cmd) = command_line exec_cmd.
Proof.
  induction exec_cmd as [|x [|y rest] IH]; [reflexivity| |].
  - simpl. now rewrite append_nil_r.
  - change (echo_words (x :: y :: rest))
      with ((x ++ " ")%string :: echo_words (y :: rest)).
    change (text ((x ++ " ")%string :: echo_words (y :: rest)))
      with ((x ++ " ") ++ text (echo_words (y :: rest)))%string.
    rewrite IH. unfold command_line.
    change (String.concat " " (x :: y :: rest))
      with (x ++ " " ++ String.concat " " (y :: rest))%string.
    now rewrite !append_assoc.
Qed.

Lemma run_cmd_echoed r :
  triple echoed (run_cmd r) (fun _ => echoed) (fun _ => echoed).
Proof.
  intros p [Hopen Hout].
  assert (Hf : echoed (forked (rule_cmd r) p)).
  { split; [now rewrite forked_stdout_open|].
    rewrite forked_out, forked_trace, commands_app, map_app, text_app.
    unfold echo. rewrite Hopen. simpl out. rewrite text_app, Hout.
    simpl. now rewrite text_echo_words, append_nil_r. }
  assert (Hw : forall status q, echoed q -> echoed (after_wait status q)).
  { intros status q [Ho Ht]. split.
    - now rewrite after_wait_stdout_open.
    - now rewrite after_wait_out, after_wait_trace. }
  rewrite run_cmd_eq. cbv zeta.
  destruct (spawned (rule_cmd r) p); try exact Hf; apply Hw; exact Hf.
Qed.

Lemma run_cmd_silent r :
  triple silent (run_cmd r) (fun _ => silent) (fun _ => silent).
Proof.
  intros p [Hopen Hout].
  assert (Hf : silent (forked (rule_cmd r) p)).
  { split; [now rewrite forked_stdout_open|].
    rewrite forked_out. unfold echo. now rewrite Hopen. }
  assert (Hw : forall status q, silent q -> silent (after_wait status q)).
  { intros status q [Ho Ht]. split.
    - now rewrite after_wait_stdout_open.
    - now rewrite after_wait_out. }
  rewrite run_cmd_eq. cbv zeta.
  destruct (spawned (rule_cmd r) p); try exact Hf; apply Hw; exact Hf.
Qed.

Lemma check_file_echoed (current prereq : string) m :
  triple echoed (check_file current prereq m)
         (fun _ => echoed) (fun _ => echoed).
Proof.
  intros p Hp. pose proof (check_file_frame current prereq m p) as H.
  destruct (check_file current prereq m p) as [b q|code q|];
    [now subst| |exact I].
  destruct H as [_ ->]. exact Hp.
Qed.

Lemma check_file_silent (current prereq : string) m :
  triple silent (check_file current prereq m)
         (fun _ => silent) (fun _ => silent).
Proof.
  intros p Hp. pose proof (check_file_frame current prereq m p) as H.
  destruct (check_file current prereq m p) as [b q|code q|];
    [now subst| |exact I].
  destruct H as [_ ->]. exact Hp.
Qed.

Lemma verdict_echoed (current prereq : string) (verdict : bool) p :
  echoed p -> echoed (with_event (EvCheck current prereq verdict) p).
Proof.
  intros [Ho Ht]. split; [exact Ho|]. simpl.
  rewrite commands_app. simpl. now rewrite app_nil_r.
Qed.

(** X6: what the program writes to stdout is the echo of the commands
    it forked, one line per command in the order of the forks, each line
    the words of the command joined by single blanks; this holds wherever
    the program ends, the command of a failed [fork] included.  With the
    quiet flag nothing is written to stdout. *)
Theorem stdout_is_the_commands (fuel : nat) m sa w q :
  final (main fuel m sa w) = Some q ->
  (arg_s sa <> 1 ->
   text (out q) = text (map command_line (commands (trace q))))
  /\ (arg_s sa = 1 -> out q = []).
Proof.
  intro Hfin. rewrite main_eq in Hfin. split.
  - intro Hs.
    assert (H0 : echoed (started sa w)).
    { split; [|reflexivity]. simpl. apply Z.eqb_neq in Hs. now rewrite Hs. }
    pose proof (main_targets_keeps echoed (fun _ => echoed) m
                  run_cmd_echoed (fun c x => check_file_echoed c x m)
                  verdict_echoed fuel _ H0) as H.
    destruct (main_targets fuel m (started sa w)) as [[] q'|code q'|];
      [| |discriminate]; injection Hfin as <-; apply H.
  - intro Hs.
    assert (H0 : silent (started sa w)).
    { split; [|reflexivity]. simpl. now rewrite Hs. }
    pose proof (main_targets_keeps silent (fun _ => silent) m
                  run_cmd_silent (fun c x => check_file_silent c x m)
                  (fun _ _ _ _ H => H) fuel _ H0) as H.
    destruct (main_targets fuel m (started sa w)) as [[] q'|code q'|];
      [| |discriminate]; injection Hfin as <-; apply H.
Qed.

(** ** Builds that have nothing to do, and builds that have *)

Lemma idle_refl p : idle p p.
Proof. now repeat split. Qed.

Lemma idle_trans p q q' : idle p q -> idle q q' -> idle p q'.
Proof.
  intros (A1 & A2 & A3 & A4 & A5 & A6) (B1 & B2 & B3 & B4 & B5 & B6).
  repeat split; congruence.
Qed.

Lemma idle_verdict (current prereq : string) (verdict : bool) p :
  idle p (with_event (EvCheck current prereq verdict) p).
Proof.
  repeat split. simpl. rewrite commands_app. simpl. apply app_nil_r.
Qed.

Lemma check_prereqs_idle m (current : string) r pres p :
  access (sys p) current = true ->
  (forall pre, In pre pres ->
     access (sys p) pre = true
     /\ st_mtime (sys p) pre <= st_mtime (sys p) current) ->
  exists q, check_prereqs m current r pres p = Ret tt q /\ idle p q.
Proof.
  intro Hcur. revert p Hcur.
  induction pres as [|pre rest IH]; intros p Hcur Hall.
  - exists p. split; [reflexivity|apply idle_refl].
  - destruct (Hall pre (or_introl eq_refl)) as [Hpre Hle].
    simpl. unfold bind at 1.
    rewrite (check_file_both_exist current pre m p Hpre Hcur).
    apply Z.ltb_ge in Hle. rewrite Hle.
    unfold bind at 1, modify at 1. unfold bind at 1, ret at 1.
    destruct (IH (with_event (EvCheck current pre false) p)) as (q & Hq & Hi).
    + exact Hcur.
    + intros x Hx. apply Hall. now right.
    + exists q. split; [exact Hq|].
      eapply idle_trans; [apply idle_verdict|exact Hi].
Qed.

Lemma up_to_date_build (fuel : nat) m :
  forall (name : string) p,
    up_to_date m (sys p) ->
    arg_b (args p) <> 1 ->
    match run_makefile fuel m name p with
    | Ret _ q => idle p q
    | Exit _ _ => False
    | Overflow => True
    end.
Proof.
  induction fuel as [|fuel IH]; intros name p Hup Hb; [exact I|].
  rewrite run_makefile_S.
  destruct (makefile_rule m name) as [r|] eqn:Hr; [|apply idle_refl].
  destruct (Hup name r Hr) as (pres & Hp & Hfiles). rewrite Hp.
  assert (Hloop : forall names p1,
             idle p p1 ->
             match for_each (run_makefile fuel m) names p1 with
             | Ret _ q => idle p q
             | Exit _ _ => False
             | Overflow => True
             end).
  { induction names as [|x rest IHn]; intros p1 Hi; simpl; [exact Hi|].
    unfold bind. pose proof Hi as (Ha & Hs & _).
    assert (H := IH x p1). rewrite Hs, Ha in H. specialize (H Hup Hb).
    destruct (run_makefile fuel m x p1) as [[] p2| |];
      [|exact H|exact I].
    apply IHn. eapply idle_trans; eassumption. }
  unfold bind at 1. specialize (Hloop pres p (idle_refl p)).
  destruct (for_each (run_makefile fuel m) pres p) as [[] p1| |];
    [|exact Hloop|exact I].
  pose proof Hloop as (Ha & Hs & _).
  unfold bind, gets. rewrite Ha. apply Z.eqb_neq in Hb. rewrite Hb.
  destruct pres as [|pre0 rest].
  - exact Hloop.
  - destruct (check_prereqs_idle m name r (pre0 :: rest) p1) as (q & -> & Hi).
    + rewrite Hs. apply (Hfiles pre0). now left.
    + intros x Hx. rewrite Hs. destruct (Hfiles x Hx) as (H1 & _ & H3).
      now split.
    + eapply idle_trans; eassumption.
Qed.

(** X7: with the force flag off, in a world where every rule has a
    prerequisite array and every target is a file at least as recent as
    each of its prerequisites, all of them files, a build runs no command
    and calls no [exit]: if the stack suffices it returns, with the world,
    [start_args], stdout and stderr as they were. *)
Theorem up_to_date_build_runs_nothing (fuel : nat) m (name : string) p :
  up_to_date m (sys p) ->
  arg_b (args p) <> 1 ->
  run_makefile fuel m name p = Overflow
  \/ exists q, run_makefile fuel m name p = Ret tt q /\ idle p q.
Proof.
  intros Hup Hb. pose proof (up_to_date_build fuel m name p Hup Hb) as H.
  destruct (run_makefile fuel m name p) as [[] q| |];
    [right; eauto|contradiction|now left].
Qed.

Lemma check_prereqs_grows m (current : string) r pres p :
  exists q evs,
    final (check_prereqs m current r pres p) = Some q
    /\ trace q = trace p ++ evs.
Proof.
  pose proof (check_prereqs_keeps (extends p) (fun _ => extends p) m) as H.
  specialize (H (fun r0 p1 Hp1 =>
                   match run_cmd r0 p1 as o
                     return (match o with
                             | Ret _ q | Exit _ q => extends p1 q
                             | Overflow => False
                             end ->
                             match o with
                             | Ret _ q => extends p q
                             | Exit _ q => extends p q
                             | Overflow => True
                             end)
                   with
                   | Ret _ q => extends_trans _ _ _ Hp1
                   | Exit _ q => extends_trans _ _ _ Hp1
                   | Overflow => fun _ => I
                   end (run_cmd_extends r0 p1))).
  specialize (H (fun c x p1 Hp1 =>
                   match check_file c x m p1 as o
                     return (match o with
                             | Ret _ q | Exit _ q => extends p1 q
                             | Overflow => False
                             end ->
                             match o with
                             | Ret _ q => extends p q
                             | Exit _ q => extends p q
                             | Overflow => True
                             end)
                   with
                   | Ret _ q => extends_trans _ _ _ Hp1
                   | Exit _ q => extends_trans _ _ _ Hp1
                   | Overflow => fun _ => I
                   end (check_file_extends c x m p1))).
  specialize (H (fun c x v p1 Hp1 =>
                   extends_trans _ _ _ Hp1 (extends_verdict c x v p1))).
  specialize (H current r pres p (extends_refl p)).
  pose proof (check_prereqs_no_overflow m current r pres p) as Hno.
  destruct (check_prereqs m current r pres p) as [[] q|code q|];
    [| |contradiction];
    destruct H as (_ & _ & _ & _ & evs & Htr & _); exists q, evs; now split.
Qed.

(** X8: with all prerequisites of a rule on disk, a pass of the
    staleness loop runs the rule's command at least once when the target
    is no file or is older than one of the prerequisites. *)
Theorem stale_target_is_rebuilt m (current : string) r pres p :
  (forall pre, In pre pres -> access (sys p) pre = true) ->
  (exists pre, In pre pres /\ stale (sys p) current pre) ->
  exists q evs,
    final (check_prereqs m current r pres p) = Some q
    /\ trace q = trace p ++ evs
    /\ In (rule_cmd r) (commands evs).
Proof.
  revert p. induction pres as [|pre0 rest IH]; intros p Hall (pre & Hin & Hst).
  - destruct Hin.
  - assert (Hpre0 := Hall pre0 (or_introl eq_refl)).
    assert (Hcheck : exists newer,
               check_file current pre0 m p = Ret newer p
               /\ (newer = false ->
                   access (sys p) current = true
                   /\ st_mtime (sys p) pre0 <= st_mtime (sys p) current)).
    { destruct (access (sys p) current) eqn:Hcur.
      - rewrite (check_file_both_exist current pre0 m p Hpre0 Hcur).
        eexists. split; [reflexivity|]. intro Hf.
        apply Z.ltb_ge in Hf. now split.
      - exists true. split; [|discriminate].
        unfold check_file. now rewrite Hpre0, Hcur. }
    destruct Hcheck as (newer & Hc & Hfalse).
    simpl. unfold bind at 1. rewrite Hc.
    unfold bind at 1, modify at 1. unfold bind at 1.
    set (p1 := with_event (EvCheck current pre0 newer) p).
    destruct newer.
    + pose proof (run_cmd_trace r p1) as Ht.
      destruct (run_cmd r p1) as [[] p2|code p2|] eqn:Hrun; [| |contradiction].
      * destruct (check_prereqs_grows m current r rest p2) as (q & evs & Hf & Hq).
        exists q, (EvCheck current pre0 true
                   :: EvRun (rule_cmd r) (spawned (rule_cmd r) p1) :: evs).
        split; [exact Hf|]. split; [|simpl; now left].
        rewrite Hq, Ht. unfold p1. simpl. now rewrite <- !app_assoc.
      * exists p2, [EvCheck current pre0 true;
                    EvRun (rule_cmd r) (spawned (rule_cmd r) p1)].
        split; [reflexivity|]. split; [|simpl; now left].
        rewrite Ht. unfold p1. simpl. now rewrite <- app_assoc.
    + destruct (Hfalse eq_refl) as [Hcur Hle]. unfold ret at 1.
      destruct (IH p1) as (q & evs & Hf & Hq & Hcmd).
      * intros x Hx. apply Hall. now right.
      * exists pre. split; [|exact Hst].
        destruct Hin as [<-|Hin]; [|exact Hin].
        exfalso. destruct Hst as [Hno|Hlt]; [congruence|lia].
      * exists q, (EvCheck current pre0 false :: evs).
        split; [exact Hf|]. split; [|exact Hcmd].
        rewrite Hq. unfold p1. simpl. now rewrite <- app_assoc.
Qed.

(** ** Every way the program ends *)

Lemma check_file_exit (current prereq : string) m p (code : Z) q :
  check_file current prereq m p = Exit code q ->
  code = EXIT_FAILURE /\ no_rule_reported m q.
Proof.
  unfold check_file.
  destruct (access (sys p) prereq) eqn:Hpre; simpl.
  - destruct (access (sys p) current); simpl; [|discriminate].
    destruct (_ || _); discriminate.
  - destruct (makefile_rule m prereq) eqn:Hr; [discriminate|].
    unfold bind, eprintf, modify, exit. intros [= <- <-].
    split; [reflexivity|]. exists (err p), prereq. now repeat split.
Qed.

Lemma last_event_inv (tr tr' : list event) (a b : event) :
  tr ++ [a] = tr' ++ [b] -> a = b.
Proof. intro H. now apply app_inj_tail in H. Qed.

Lemma spawn_ok_failed p (code : Z) : spawn_ok p -> ~ spawn_failed code p.
Proof.
  intros Hok (tr & argv & e & [H|H] & _);
    destruct (Hok tr argv e) as [H1 H2]; contradiction.
Qed.

Lemma spawn_ok_verdict (current prereq : string) (verdict : bool) p :
  spawn_ok (with_event (EvCheck current prereq verdict) p).
Proof.
  intros tr argv e. simpl.
  split; intro H; apply last_event_inv in H; discriminate.
Qed.

Lemma run_cmd_spawn_ok r p q : run_cmd r p = Ret tt q -> spawn_ok q.
Proof.
  intro Hrun. pose proof (run_cmd_trace r p) as Ht. rewrite Hrun in Ht.
  rewrite run_cmd_eq in Hrun. cbv zeta in Hrun.
  intros tr argv e. rewrite Ht.
  destruct (spawned (rule_cmd r) p) as [e0|e0|e0 e'|status];
    try discriminate;
    split; intro H; apply last_event_inv in H; discriminate.
Qed.

(** The two ways the walk over the targets is cut short: by the oracle,
    on a prerequisite that is no file and has no rule, or by a [fork] or
    a [waitpid] that failed. *)
Lemma main_targets_fatal (fuel : nat) m :
  triple spawn_ok (main_targets fuel m) (fun _ => spawn_ok)
         (fun c q => (c = EXIT_FAILURE /\ no_rule_reported m q /\ spawn_ok q)
                     \/ spawn_failed c q).
Proof.
  apply main_targets_keeps.
  - intros r p _. destruct (run_cmd r p) as [[] q|c q|] eqn:Hrun.
    + eapply run_cmd_spawn_ok, Hrun.
    + right. eapply run_cmd_exit, Hrun.
    + exact I.
  - intros current prereq p Hp.
    pose proof (check_file_frame current prereq m p) as Hf.
    destruct (check_file current prereq m p) as [v q|c q|] eqn:Hc.
    + now subst q.
    + left. destruct (check_file_exit _ _ _ _ _ _ Hc) as [-> Hno].
      split; [reflexivity|]. split; [exact Hno|].
      destruct Hf as [_ ->]. exact Hp.
    + exact I.
  - intros current prereq verdict p _. apply spawn_ok_verdict.
Qed.

Lemma spawn_ok_started (sa : start_args) (w : world) :
  spawn_ok (started sa w).
Proof.
  intros tr argv e. simpl.
  split; intro H; symmetry in H; apply app_eq_nil in H;
    destruct H; discriminate.
Qed.

(** ** The walk over the targets *)





(** X9: the program ends in exactly one of three ways.  The walk over
    the targets runs to its end and the exit code is the one on record; or
    the walk is cut short by the report on stderr of a prerequisite that is
    no file and has no rule, no [fork] or [waitpid] having failed, and the
    exit code is [EXIT_FAILURE]; or it is cut short by a [fork] or a
    [waitpid] that failed, and the exit code is [errno] as read after the
    [perror] that reported it. *)
Theorem main_exit_statuses (fuel : nat) m sa w (code : Z) q :
  exitcode sa = 0 ->
  main fuel m sa w = Exit code q ->
  let returned :=
    main_targets fuel m (started sa w) = Ret tt q
    /\ code = recorded 0 (trace q) in
  let unresolved :=
    main_targets fuel m (started sa w) = Exit code q
    /\ code = EXIT_FAILURE /\ no_rule_reported m q
    /\ forall c, ~ spawn_failed c q in
  let failed :=
    main_targets fuel m (started sa w) = Exit code q
    /\ spawn_failed code q in
  (returned \/ unresolved \/ failed)
  /\ ~ (returned /\ unresolved)
  /\ ~ (returned /\ failed)
  /\ ~ (unresolved /\ failed).
Proof.
  intros Hzero Hmain. cbv zeta. rewrite main_eq in Hmain.
  pose proof (main_targets_on_record 0 fuel m (started sa w) Hzero) as Hrec.
  pose proof (main_targets_fatal fuel m (started sa w)
                (spawn_ok_started sa w)) as Hfatal.
  split; [|split; [|split]].
  - destruct (main_targets fuel m (started sa w)) as [[] q'|c q'|];
      [| |discriminate]; injection Hmain as <- <-.
    + left. split; [reflexivity|exact Hrec].
    + right. destruct Hfatal as [(Hc & Hno & Hok)|Hsp].
      * left. split; [reflexivity|]. split; [exact Hc|].
        split; [exact Hno|]. intro c0. now apply spawn_ok_failed.
      * right. now split.
  - intros [[H1 _] [H2 _]]. congruence.
  - intros [[H1 _] [H2 _]]. congruence.
  - intros [(_ & _ & _ & Hnone) [_ Hsp]]. exact (Hnone _ Hsp).
Qed.

End Builds.

(** * Start-up *)

(** ** The target array *)

Lemma store_next (done : list string) (arg : string)
      (rest : list (option string)) :
  store (List.length done) arg (map Some done ++ None :: rest)
  = Some (map Some (done ++ [arg]) ++ rest).
Proof.
  induction done as [|x done IH]; simpl; [reflexivity|].
  now rewrite IH.
Qed.

Lemma store_full (done : list string) (arg : string) :
  store (List.length done) arg (map Some done) = None.
Proof.
  induction done as [|x done IH]; simpl; [reflexivity|].
  now rewrite IH.
Qed.

Lemma until_null_filled (names : list string) (k : nat) :
  until_null (map Some names ++ repeat None k)
  = match k with O => None | S _ => Some names end.
Proof.
  induction names as [|x names IH]; simpl.
  - now destruct k.
  - rewrite IH. now destruct k.
Qed.

Lemma store_targets_fill (calloc : calloc_oracle) (operands : list string) :
  (forall n, calloc n = None) ->
  forall (optind : Z) (s : start_args) (done : list string) (k : nat),
    c_tar s = Z.of_nat (List.length done) ->
    (List.length operands <= k)%nat ->
    optind + Z.of_nat (List.length operands) <= n_tar s + 1 ->
    (forall arg, In arg operands ->
       Z.of_nat (String.length arg) < MAX_LINE) ->
    store_targets calloc optind operands s (map Some done ++ repeat None k)
    = Ready (set_c_tar (c_tar s + Z.of_nat (List.length operands)) s)
            (map Some (done ++ operands)
             ++ repeat None (k - List.length operands)).
Proof.
  intro Halloc.
  induction operands as [|arg rest IH]; intros optind s done k Hc Hk Hn Hlen.
  - simpl. rewrite Z.add_0_r, app_nil_r, Nat.sub_0_r.
    now destruct s.
  - simpl List.length in *. destruct k as [|k]; [lia|].
    simpl store_targets.
    assert (Hn1 : (n_tar s <? optind) = false) by (apply Z.ltb_ge; lia).
    assert (Hl1 : (MAX_LINE <=? Z.of_nat (String.length arg)) = false).
    { apply Z.leb_gt. apply Hlen. now left. }
    assert (Hc1 : (c_tar s <? 0) = false) by (apply Z.ltb_ge; lia).
    rewrite Hn1, Hc1, Halloc, Hc, Nat2Z.id.
    simpl repeat. rewrite store_next, Hl1.
    rewrite (IH (optind + 1) _ (done ++ [arg]) k).
    + simpl. rewrite <- app_assoc. simpl. f_equal.
      unfold set_c_tar. simpl. f_equal. lia.
    + simpl. rewrite length_app. simpl. lia.
    + lia.
    + simpl. lia.
    + intros x Hx. apply Hlen. now right.
Qed.

Lemma init_slots_eq : init_slots = map Some [] ++ repeat None 50.
Proof. reflexivity. Qed.

Lemma read_flags_fields (opts : list getopt_result) :
  forall s s',
    read_flags opts s = inl s' ->
    has_flag "?" opts = false
    /\ arg_b s' = (if has_flag "B" opts then 1 else arg_b s)
    /\ arg_s s' = (if has_flag "s" opts then 1 else arg_s s)
    /\ makefile_file s' = last_file opts (makefile_file s)
    /\ n_tar s' = n_tar s /\ c_tar s' = c_tar s
    /\ exitcode s' = exitcode s /\ target s' = target s.
Proof.
  induction opts as [|o rest IH]; intros s s' H.
  - injection H as <-. now repeat split.
  - simpl in H. unfold has_flag, last_file in *. simpl.
    destruct (Ascii.eqb_spec (flag o) "f") as [Ef|Ef];
      [|destruct (Ascii.eqb_spec (flag o) "B") as [Eb|Eb];
        [|destruct (Ascii.eqb_spec (flag o) "s") as [Es|Es];
          [|destruct (Ascii.eqb_spec (flag o) "?") as [Eq|Eq];
            [discriminate|]]]];
      try rewrite Ef; try rewrite Eb; try rewrite Es;
      destruct (IH _ _ H) as (A & B & C & D & E & F & G & K);
      simpl in *; repeat split; try assumption;
      match goal with
      | Hx : ?x = (if ?c then _ else _) |- ?x = _ =>
          rewrite Hx; destruct c; reflexivity
      end.
Qed.


Lemma check_start_args_ready (calloc : calloc_oracle)
        (opts : list getopt_result) (optind : Z)
        (argv : list string) (errno : Z) :
  (forall n, calloc n = None) ->
  has_flag "?" opts = false ->
  1 <= optind <= Z.of_nat (List.length argv) ->
  Z.of_nat (List.length argv) <= n_tar init_struct + 1 ->
  Z.of_nat (List.length argv) - optind < n_tar init_struct ->
  (forall arg, In arg (skipn (Z.to_nat optind) argv) ->
     Z.of_nat (String.length arg) < MAX_LINE) ->
  exists s slots,
    check_start_args calloc opts optind argv errno init_struct init_slots
    = Ready s slots
    /\ until_null slots = Some (skipn (Z.to_nat optind) argv)
    /\ c_tar s = Z.of_nat (List.length (skipn (Z.to_nat optind) argv))
    /\ arg_b s = (if has_flag "B" opts then 1 else 0)
    /\ arg_s s = (if has_flag "s" opts then 1 else 0)
    /\ makefile_file s = last_file opts None
    /\ exitcode s = 0
    /\ target s = [].
Proof.
  intros Halloc Hq Hind Hargc Hops Hlen.
  unfold check_start_args.
  destruct (read_flags opts init_struct) as [s0|s0] eqn:Hflags.
  2: { exfalso. clear - Hq Hflags. revert Hflags. generalize init_struct.
       induction opts as [|o rest IH]; intros s H; [discriminate|].
       simpl in H. unfold has_flag in Hq. simpl in Hq.
       apply orb_false_iff in Hq. destruct Hq as [Hq1 Hq2].
       rewrite Hq1 in H.
       destruct (Ascii.eqb (flag o) "f"); [now apply IH in H|].
       destruct (Ascii.eqb (flag o) "B"); [now apply IH in H|].
       destruct (Ascii.eqb (flag o) "s"); [now apply IH in H|].
       now apply IH in H. }
  destruct (read_flags_fields _ _ _ Hflags) as (_ & Hb & Hs & Hf & Hn & Hc & He & Ht).
  set (operands := skipn (Z.to_nat optind) argv) in *.
  assert (Hcount : Z.of_nat (List.length operands)
                   = Z.of_nat (List.length argv) - optind).
  { unfold operands. rewrite length_skipn. lia. }
  simpl in Hargc, Hops, Hn, Hc.
  rewrite init_slots_eq,
    (store_targets_fill calloc operands Halloc optind s0 [] 50);
    [|rewrite Hc; reflexivity|lia|rewrite Hn; lia|exact Hlen].
  eexists. eexists. split; [reflexivity|].
  split.
  { rewrite until_null_filled.
    destruct (50 - List.length operands)%nat eqn:E; [lia|reflexivity]. }
  simpl. rewrite Hc. repeat split; assumption.
Qed.

(** X10: when no [calloc] fails, with options [getopt] knows, an
    argument vector of at most [n_tar + 1] entries and fewer than [n_tar]
    operands, each shorter than [MAX_LINE], [check_start_args] returns;
    the walk of [main] over the
    target array then finds the operands, all of them and in their order,
    and [c_tar] is their number.  The force and the quiet flag are set
    exactly when [getopt] returned their letter at some call, the makefile
    is the argument of the last [-f], and a character the switch has no
    case for (the colon of a missing argument) changes nothing. *)
Theorem operands_become_targets (calloc : calloc_oracle)
        (opts : list getopt_result) (optind : Z)
        (argv : list string) (errno : Z) :
  (forall n, calloc n = None) ->
  has_flag "?" opts = false ->
  1 <= optind <= Z.of_nat (List.length argv) ->
  Z.of_nat (List.length argv) <= n_tar init_struct + 1 ->
  Z.of_nat (List.length argv) - optind < n_tar init_struct ->
  (forall arg, In arg (skipn (Z.to_nat optind) argv) ->
     Z.of_nat (String.length arg) < MAX_LINE) ->
  exists s slots,
    check_start_args calloc opts optind argv errno init_struct init_slots
    = Ready s slots
    /\ until_null slots = Some (skipn (Z.to_nat optind) argv)
    /\ c_tar s = Z.of_nat (List.length (skipn (Z.to_nat optind) argv))
    /\ arg_b s = (if has_flag "B" opts then 1 else 0)
    /\ arg_s s = (if has_flag "s" opts then 1 else 0)
    /\ makefile_file s = last_file opts None
    /\ exitcode s = 0.
Proof.
  intros Halloc Hq Hind Hargc Hops Hlen.
  destruct (check_start_args_ready calloc opts optind argv errno
              Halloc Hq Hind Hargc Hops Hlen)
    as (s & slots & H1 & H2 & H3 & H4 & H5 & H6 & H7 & _).
  exists s, slots. now repeat split.
Qed.

(** X11: the target array has [n_tar] slots and [realloc_buff] is called
    when [optind] exceeds [n_tar], not when the array is full.  When no
    [calloc] fails, with the operands right after the program name and exactly [n_tar] of them,
    [check_start_args] returns with every slot taken: the array has no
    [NULL] left, and the walk of [main] over it leaves the array. *)
Theorem full_array_has_no_end (calloc : calloc_oracle)
        (opts : list getopt_result) (argv : list string) (errno : Z) :
  (forall n, calloc n = None) ->
  has_flag "?" opts = false ->
  Z.of_nat (List.length argv) = n_tar init_struct + 1 ->
  (forall arg, In arg (skipn 1 argv) ->
     Z.of_nat (String.length arg) < MAX_LINE) ->
  exists s,
    check_start_args calloc opts 1 argv errno init_struct init_slots
    = Ready s (map Some (skipn 1 argv))
    /\ c_tar s = n_tar init_struct
    /\ until_null (map Some (skipn 1 argv)) = None.
Proof.
  intros Halloc Hq Hargc Hlen. unfold check_start_args.
  destruct (read_flags opts init_struct) as [s0|s0] eqn:Hflags.
  2: { exfalso. clear - Hq Hflags. revert Hflags. generalize init_struct.
       induction opts as [|o rest IH]; intros s H; [discriminate|].
       simpl in H. unfold has_flag in Hq. simpl in Hq.
       apply orb_false_iff in Hq. destruct Hq as [Hq1 Hq2].
       rewrite Hq1 in H.
       destruct (Ascii.eqb (flag o) "f"); [now apply IH in H|].
       destruct (Ascii.eqb (flag o) "B"); [now apply IH in H|].
       destruct (Ascii.eqb (flag o) "s"); [now apply IH in H|].
       now apply IH in H. }
  destruct (read_flags_fields _ _ _ Hflags) as (_ & _ & _ & _ & Hn & Hc & _).
  change (Z.to_nat 1) with 1%nat.
  set (operands := skipn 1 argv) in *.
  assert (Hcount : List.length operands = 50%nat).
  { unfold operands. rewrite length_skipn. simpl in Hargc. lia. }
  simpl in Hn, Hc.
  rewrite init_slots_eq, (store_targets_fill calloc operands Halloc 1 s0 [] 50);
    [|rewrite Hc; reflexivity|lia|rewrite Hn, Hcount; simpl; lia|exact Hlen].
  rewrite Hcount. simpl repeat. simpl app at 2. rewrite app_nil_r.
  eexists. split; [reflexivity|]. split; [simpl; lia|].
  pose proof (until_null_filled operands 0) as H. simpl in H.
  now rewrite app_nil_r in H.
Qed.


(** ** The makefile *)

Section Loading.

Context {makefile rule world file : Type}
        {PR : Parser makefile rule} {SYS : OS world}
        {LD : Loader world file makefile}.

Local Abbreviation process := (proc (world := world)).
Implicit Types (p q : process) (m : makefile).

Lemma choose_makefile_loaded p (f : file) m :
  fopen (sys p) (makefile_name (args p)) = inr f ->
  parse_makefile f = Some m ->
  choose_makefile p = Ret m p.
Proof.
  unfold choose_makefile, makefile_name, bind, gets. intros Hf Hm.
  destruct (makefile_file (args p)); now rewrite Hf, Hm.
Qed.

Lemma choose_makefile_unopened p (errno : Z) :
  fopen (sys p) (makefile_name (args p)) = inl errno ->
  let shown := match makefile_file (args p) with
               | None => errno
               | Some _ => errno_after_fprintf (sys p) errno
               end in
  exists lines,
    choose_makefile p
    = Exit (errno_after_perror (sys p) shown) (with_err lines p)
    /\ text lines
       = (makefile_name (args p) ++ ":"
          ++ match makefile_file (args p) with
             | None => ": "
             | Some _ => ""
             end
          ++ strerror shown ++ nl)%string.
Proof.
  unfold choose_makefile, makefile_name, bind, gets. intro Hf.
  destruct (makefile_file (args p)) as [name|]; rewrite Hf; cbv zeta.
  - exists [(name ++ ":")%string;
            perror_text "" (errno_after_fprintf (sys p) errno)]. split.
    + unfold eprintf, modify, exit, with_err. simpl.
      now rewrite <- app_assoc.
    + simpl. now rewrite append_nil_r, append_assoc.
  - exists [perror_text "mmakefile:" errno]. split; [reflexivity|].
    simpl. now rewrite append_nil_r.
Qed.

Lemma choose_makefile_unparsed p (f : file) :
  fopen (sys p) (makefile_name (args p)) = inr f ->
  parse_makefile f = None ->
  choose_makefile p =
  Exit EXIT_FAILURE
       (with_err [(makefile_name (args p) ++ ": Could not parse makefile")%string] p).
Proof.
  unfold choose_makefile, makefile_name, bind, gets. intros Hf Hm.
  destruct (makefile_file (args p)); now rewrite Hf, Hm.
Qed.

Lemma main_from_eq (fuel : nat) sa w :
  main_from fuel sa w =
  match choose_makefile (started sa w) with
  | Ret m p =>
      match main_targets fuel m p with
      | Ret _ p' => Exit (exitcode (args p')) p'
      | Exit code p' => Exit code p'
      | Overflow => Overflow
      end
  | Exit code p => Exit code p
  | Overflow => Overflow
  end.
Proof.
  unfold main_from, started, boot.
  destruct (arg_s sa =? 1); simpl;
    unfold bind at 1, fclose_stdout, modify, ret;
    unfold bind at 1; unfold bind at 1, gets at 1; simpl;
    (destruct (c_tar sa =? 0) eqn:Hc; unfold bind at 1;
     match goal with
     | |- context [choose_makefile ?p] =>
         destruct (choose_makefile p) as [m p1|code p1|] eqn:Hm;
         [|reflexivity|reflexivity]
     end;
     assert (Hp1 : args p1 = sa)
       by (revert Hm; unfold choose_makefile, bind, gets, eprintf, modify,
             exit, ret; simpl;
           destruct (makefile_file sa);
           repeat match goal with
                  | |- context [match ?x with _ => _ end] => destruct x
                  end; intros [= <- <-] || discriminate; reflexivity);
     rewrite main_targets_eq, Hp1, Hc; unfold bind, gets, exit;
     rewrite ?Hp1; reflexivity).
Qed.

Lemma makefile_is_loaded sa w (fuel : nat) (f : file) m :
  fopen w (makefile_name sa) = inr f ->
  parse_makefile f = Some m ->
  main_from fuel sa w = main fuel m sa w.
Proof.
  intros Hf Hm. rewrite main_from_eq, main_eq.
  now rewrite (choose_makefile_loaded (started sa w) f m Hf Hm).
Qed.

(** X13: [main] opens the makefile, [mmakefile] unless [-f] named
    another, before it looks at any target.  When the file is opened and
    parsed, the program is [main] on the parsed makefile.  When it cannot
    be opened the program ends by [exit(errno)], with [errno] as it stands
    after the message has been written: by [perror] on the [errno] of
    [fopen] for [mmakefile], and for a file named by [-f] by [fprintf] and
    then [perror], on the [errno] that [fprintf] left.  When it cannot be
    parsed the program ends with [EXIT_FAILURE].  In both cases the file's
    name and the reason are on stderr, with or without the quiet flag, and
    nothing was run, nor written to stdout. *)
Theorem makefile_is_loaded_first (fuel : nat) sa w :
  (forall (f : file) m,
     fopen w (makefile_name sa) = inr f ->
     parse_makefile f = Some m ->
     main_from fuel sa w = main fuel m sa w)
  /\ (forall errno,
        fopen w (makefile_name sa) = inl errno ->
        let shown := match makefile_file sa with
                     | None => errno
                     | Some _ => errno_after_fprintf w errno
                     end in
        exists q,
          main_from fuel sa w = Exit (errno_after_perror w shown) q
          /\ trace q = [] /\ out q = [] /\ sys q = w
          /\ text (err q)
             = (makefile_name sa ++ ":"
                ++ match makefile_file sa with
                   | None => ": "
                   | Some _ => ""
                   end
                ++ strerror shown ++ nl)%string)
  /\ (forall (f : file),
        fopen w (makefile_name sa) = inr f ->
        parse_makefile f = None ->
        exists q,
          main_from fuel sa w = Exit EXIT_FAILURE q
          /\ trace q = [] /\ out q = [] /\ sys q = w
          /\ err q = [(makefile_name sa ++ ": Could not parse makefile")%string]).
Proof.
  split; [|split].
  - intros f m Hf Hm. now apply (makefile_is_loaded sa w fuel f m).
  - intros errno Hf. cbv zeta. rewrite main_from_eq.
    destruct (choose_makefile_unopened (started sa w) errno Hf)
      as (lines & -> & Htext).
    eexists. split; [reflexivity|]. now repeat split.
  - intros f Hf Hm. rewrite main_from_eq.
    rewrite (choose_makefile_unparsed (started sa w) f Hf Hm).
    eexists. split; [reflexivity|]. now repeat split.
Qed.

(** X14: from the command line to [main].  When no [calloc] fails, with
    options [getopt] knows, operands within the bounds of the target array
    and a makefile
    that is opened and parsed, the program is [main] on the parsed
    makefile and on a [start_args] whose targets are the operands in their
    order, whose flags are those given, and whose exit code is 0. *)
Theorem command_line_to_main (fuel : nat) (calloc : calloc_oracle)
        (opts : list getopt_result)
        (optind : Z) (argv : list string) (errno : Z) w (f : file) m :
  (forall n, calloc n = None) ->
  has_flag "?" opts = false ->
  1 <= optind <= Z.of_nat (List.length argv) ->
  Z.of_nat (List.length argv) <= n_tar init_struct + 1 ->
  Z.of_nat (List.length argv) - optind < n_tar init_struct ->
  (forall arg, In arg (skipn (Z.to_nat optind) argv) ->
     Z.of_nat (String.length arg) < MAX_LINE) ->
  fopen w (match last_file opts None with
           | None => "mmakefile"%string
           | Some name => name
           end) = inr f ->
  parse_makefile f = Some m ->
  exists sa,
    mmake fuel calloc opts optind argv errno w = Some (main fuel m sa w)
    /\ target sa = skipn (Z.to_nat optind) argv
    /\ c_tar sa = Z.of_nat (List.length (target sa))
    /\ arg_b sa = (if has_flag "B" opts then 1 else 0)
    /\ arg_s sa = (if has_flag "s" opts then 1 else 0)
    /\ exitcode sa = 0.
Proof.
  intros Halloc Hq Hind Hargc Hops Hlen Hf Hm.
  destruct (check_start_args_ready calloc opts optind argv errno
              Halloc Hq Hind Hargc Hops Hlen)
    as (s & slots & Hs & Hnull & Hc & Hb & Hsil & Hfile & He & Ht).
  assert (Hname : forall names,
             makefile_name (set_target names s)
             = match last_file opts None with
               | None => "mmakefile"%string
               | Some name => name
               end)
    by (intro names; unfold makefile_name; simpl; now rewrite Hfile).
  assert (Hmain : forall names,
             main_from fuel (set_target names s) w
             = main fuel m (set_target names s) w).
  { intro names. apply (makefile_is_loaded _ w fuel f m); [|exact Hm].
    now rewrite Hname. }
  exists (set_target (skipn (Z.to_nat optind) argv) s).
  split.
  - unfold mmake. rewrite !Halloc, Hs.
    destruct (c_tar s =? 0) eqn:Hz.
    + apply Z.eqb_eq in Hz. rewrite Hz in Hc.
      destruct (skipn (Z.to_nat optind) argv) as [|x rest] eqn:Hops';
        [|simpl in Hc; lia].
      rewrite <- (Hmain []). f_equal. f_equal.
      destruct s. simpl in Ht. now subst.
    + rewrite Hnull. now rewrite Hmain.
  - simpl. now repeat split.
Qed.

End Loading.

(** * The program at work *)

Section Runs.

Import Demo.
Local Open Scope string_scope.

(** Scenario 1 of the specification: nothing is built yet; [app.o] is
    made, then [app]. *)
Example build_from_scratch :
  ran (main 3 m_app (flags 0 0 []) w_src)
  = [["touch"; "app.o"]; ["touch"; "app"]]
  /\ exit_code (main 3 m_app (flags 0 0 []) w_src) = Some 0.
Proof. split; reflexivity. Qed.

(** Scenario 2: everything is newer than what it is made from; nothing
    is run. *)
Example build_up_to_date :
  ran (main 3 m_app (flags 0 0 []) w_built) = []
  /\ exit_code (main 3 m_app (flags 0 0 []) w_built) = Some 0.
Proof. split; reflexivity. Qed.

(** Scenario 3: a prerequisite with no file and no rule ends the program
    with status 1 before anything is run. *)
Example build_unresolvable :
  ran (main 3 m_needs (flags 0 0 []) w_tie) = []
  /\ exit_code (main 3 m_needs (flags 0 0 []) w_tie) = Some 1.
Proof. split; reflexivity. Qed.

(** With the force flag everything on the way is run once. *)
Example build_forced :
  ran (main 3 m_app (flags 1 0 []) w_built)
  = [["touch"; "app.o"]; ["touch"; "app"]].
Proof. reflexivity. Qed.




(** C2 at work: a prerequisite as old as the target is not newer; one
    that is five seconds younger is; and a target that is not there is
    always to be made. *)
Lemma timestamps_decide :
  access (sys p_tie) "a" = true
  /\ check_file "t" "a" m_t p_tie = Ret false p_tie
  /\ check_file "t" "b" m_t p_old = Ret true p_old
  /\ check_file "app.o" "app.c" m_app p_src = Ret true p_src.
Proof.
  destruct (check_file_existing_prereq (PR := parser) (SYS := system)
              "t" "a" m_t p_tie eq_refl) as (_ & _ & Htie & _).
  destruct (check_file_existing_prereq (PR := parser) (SYS := system)
              "t" "b" m_t p_old eq_refl) as (_ & Hold & _ & _).
  destruct (check_file_existing_prereq (PR := parser) (SYS := system)
              "app.o" "app.c" m_app p_src eq_refl) as (_ & _ & _ & Hnew).
  split; [reflexivity|]. split; [|split].
  - apply Htie; [reflexivity|]. cbv. discriminate.
  - apply Hold; reflexivity.
  - apply Hnew. reflexivity.
Defined.

(** C3 at work: [gone] is no file; without a rule for it the check ends
    the program with status 1 and the message on stderr, with a rule it
    asks for a rebuild. *)
Lemma missing_prerequisite :
  access (sys p_tie) "gone" = false
  /\ makefile_rule m_needs "gone" = None
  /\ check_file "t" "gone" m_needs p_tie =
     Exit 1 (with_err ["mmake: No rule to make target 'gone'" ++ nl] p_tie)
  /\ check_prereqs m_needs "t" r_needs ["gone"; "a"] p_tie =
     Exit 1 (with_err ["mmake: No rule to make target 'gone'" ++ nl] p_tie)
  /\ check_file "t" "gone" m_gen p_tie = Ret true p_tie.
Proof.
  destruct (check_file_missing_prereq (PR := parser) (SYS := system) "t" "gone" m_needs p_tie eq_refl)
    as [Hfatal _].
  destruct (Hfatal eq_refl) as (Hexit & _ & _ & Hloop & _).
  destruct (check_file_missing_prereq (PR := parser) (SYS := system) "t" "gone" m_gen p_tie eq_refl)
    as [_ Hrule].
  split; [reflexivity|]. split; [reflexivity|]. split; [exact Hexit|].
  split; [apply Hloop|]. apply (Hrule r_gen). reflexivity.
Defined.

(** C4 on a present but empty prerequisite array: [clean] has such a
    rule; without the force flag building it returns in the process it was
    called in, and its command [touch x] is not run. *)
Lemma empty_prerequisite_array_is_skipped :
  makefile_rule m_clean "clean" = Some r_clean
  /\ rule_prereq r_clean = Some []
  /\ rule_cmd r_clean = ["touch"; "x"]
  /\ arg_b (args p_src) = 0
  /\ run_makefile 2 m_clean "clean" p_src = Ret tt p_src
  /\ main 2 m_clean (flags 0 0 ["clean"]) w_src
     = Exit 0 (started (flags 0 0 ["clean"]) w_src)
  /\ ran (main 2 m_clean (flags 0 0 ["clean"]) w_src) = [].
Proof.
  assert (Hb : arg_b (args p_src) <> 1) by discriminate.
  destruct (run_makefile_empty_prereq (PR := parser) (SYS := system)
              1 m_clean "clean" r_clean p_src eq_refl eq_refl Hb)
    as [Hrun Hmain].
  split; [reflexivity|]. split; [reflexivity|]. split; [reflexivity|].
  split; [reflexivity|]. split; [exact Hrun|].
  rewrite (Hmain (flags 0 0 ["clean"]) w_src); [|discriminate|discriminate
                                                 |reflexivity].
  split; reflexivity.
Defined.

(** The [else] branch at work: a rule with no prerequisite array is run
    though the force flag is off, and a rule with an empty array is run
    under the force flag. *)
Lemma phony_targets_run :
  makefile_rule m_two "first" = Some r_first
  /\ rule_prereq r_first = None
  /\ run_makefile 1 m_two "first" p_src = run_cmd r_first p_src
  /\ ran (run_makefile 1 m_two "first" p_src) = [["exit2"]]
  /\ run_makefile 1 m_clean "clean" (started (flags 1 0 []) w_src)
     = run_cmd r_clean (started (flags 1 0 []) w_src).
Proof.
  destruct (run_makefile_null_prereq (PR := parser) (SYS := system) 0 m_two "first" r_first p_src
              eq_refl (or_introl eq_refl)) as [H1 _].
  destruct (run_makefile_null_prereq (PR := parser) (SYS := system) 0 m_clean "clean" r_clean
              (started (flags 1 0 []) w_src)
              eq_refl (or_intror (conj eq_refl eq_refl))) as [H2 _].
  split; [reflexivity|]. split; [reflexivity|]. split; [exact H1|].
  split; [reflexivity|exact H2].
Defined.

(** C6 as stated fails: the command of [lost] is not found by [execvp],
    yet the program goes on to build [second] and exits with 0. *)
Lemma exec_failure_goes_on :
  spawned (rule_cmd r_lost) (started (flags 0 0 ["lost"; "second"]) w_src)
  = ExecFailed ENOENT EINVAL
  /\ ran (main 2 m_lost (flags 0 0 ["lost"; "second"]) w_src)
     = [["nosuch"]; ["true"]]
  /\ exit_code (main 2 m_lost (flags 0 0 ["lost"; "second"]) w_src) = Some 0.
Proof. repeat split. Qed.

(** C6 at work: a failing [fork] ends the program, whatever was to
    follow, with [errno] as [perror] left it (here [EINVAL], not the
    [EAGAIN] of [fork]), a status that is not zero; a failing [execvp]
    leaves the [errno] of the child as [exitcode] and [run_cmd] returns. *)
Lemma fork_failure_is_fatal :
  spawned (rule_cmd r_nofork) p_src = ForkFailed EAGAIN
  /\ exit_code (run_cmd r_nofork p_src) = Some EINVAL
  /\ EINVAL <> 0
  /\ ran (bind (run_cmd r_nofork) (fun _ => run_cmd r_second) p_src)
     = [["forkfail"]]
  /\ ran (for_each (run_makefile 1 m_nofork) ["nofork"; "second"] p_src)
     = [["forkfail"]]
  /\ exit_code (main 2 m_nofork (flags 0 0 ["nofork"; "second"]) w_src)
     = Some EINVAL
  /\ spawned (rule_cmd r_lost) p_src = ExecFailed ENOENT EINVAL
  /\ option_map (fun p => exitcode (args p)) (final (run_cmd r_lost p_src))
     = Some EINVAL.
Proof.
  destruct (run_cmd_spawn_failure (PR := parser) (SYS := system)
              r_nofork p_src EAGAIN) as [Hfork _].
  destruct (Hfork (or_introl eq_refl)) as (Hexit & Hbind & Hwalk & _ & Hnz).
  destruct (run_cmd_spawn_failure (PR := parser) (SYS := system)
              r_lost p_src ENOENT) as [_ Hexec].
  split; [reflexivity|]. split; [now rewrite Hexit|].
  split; [apply Hnz; cbv; split; reflexivity|].
  split; [now rewrite Hbind|].
  split; [now rewrite (Hwalk 0%nat m_nofork "nofork" ["second"] eq_refl eq_refl)|].
  split; [reflexivity|]. split; [reflexivity|].
  now rewrite (Hexec EINVAL eq_refl).
Defined.

(** C7 as stated fails: the rule [marker] has an empty command, and
    [run_cmd] on it forks all the same; the child, started on a null
    program name, is killed. *)
Lemma empty_command_forks :
  rule_cmd r_marker = []
  /\ trace p_src = []
  /\ option_map trace (final (run_cmd r_marker p_src))
     = Some [EvRun [] (Terminated 139)].
Proof. repeat split. Qed.

(** C7 at work. *)
Lemma empty_command_echoes_nothing :
  rule_cmd r_marker = []
  /\ exists p',
       run_cmd r_marker p_failed = Ret tt p'
       /\ out p' = []
       /\ ran (run_cmd r_marker p_failed) = [[]]
       /\ args p' = args p_failed.
Proof.
  destruct (run_cmd_empty_command (PR := parser) (SYS := system) r_marker p_failed eq_refl)
    as (p' & Hfin & Hout & Htr & Hsig & _).
  destruct (Hsig 139 eq_refl eq_refl) as [Hrun Hargs].
  split; [reflexivity|]. exists p'.
  split; [exact Hrun|]. split; [exact Hout|]. split; [|exact Hargs].
  reflexivity.
Defined.

(** C8 at work: [README] has no rule and is no file. *)
Lemma unknown_target_is_ignored :
  makefile_rule m_app "README" = None
  /\ access (sys p_src) "README" = false
  /\ run_makefile 1 m_app "README" p_src = Ret tt p_src
  /\ main 1 m_app (flags 0 0 ["README"]) w_src
     = Exit 0 (started (flags 0 0 ["README"]) w_src).
Proof.
  destruct (run_makefile_no_rule (PR := parser) (SYS := system) 0 m_app "README" p_src eq_refl) as [H1 H2].
  split; [reflexivity|]. split; [reflexivity|]. split; [exact H1|].
  apply H2; [discriminate|reflexivity].
Defined.

(** C10 at work: after a command that failed with 2, a command killed by
    SIGABRT leaves 2 on record. *)
Lemma killed_child_keeps_exitcode :
  spawned (rule_cmd r_abort) p_failed = Terminated 134
  /\ WIFEXITED 134 = false
  /\ run_cmd r_abort p_failed = Ret tt (forked (rule_cmd r_abort) p_failed)
  /\ exitcode (args (forked (rule_cmd r_abort) p_failed)) = 2.
Proof.
  destruct (run_cmd_abnormal_child (PR := parser) (SYS := system) r_abort p_failed) as [Hsig _].
  destruct (Hsig 134 eq_refl eq_refl) as [Hrun Hargs].
  split; [reflexivity|]. split; [reflexivity|]. split; [exact Hrun|].
  now rewrite Hargs.
Defined.

(** C9 as stated fails: [echo] fails on a closed descriptor 1, so the run
    with [-s] exits with 1 and the run without exits with 0. *)
Lemma quiet_flag_changes_exit_code :
  flags 0 1 ["hello"] = set_arg_s 1 (flags 0 0 ["hello"])
  /\ ran (main 2 m_hello (flags 0 1 ["hello"]) w_src) = [["echo"; "hi"]]
  /\ exit_code (main 2 m_hello (flags 0 1 ["hello"]) w_src) = Some 1
  /\ exit_code (main 2 m_hello (flags 0 0 ["hello"]) w_src) = Some 0.
Proof. repeat split. Qed.

(** C9 at work, on programs that do not look at descriptor 1. *)
Lemma quiet_flag_is_silent :
  (forall (open : bool) (w : world) (argv : list string),
     spawn (OS := deaf_system) open w argv
     = spawn (OS := deaf_system) true w argv)
  /\ same_run (main (SYS := deaf_system) 3 m_app (flags 0 1 []) w_src)
              (main (SYS := deaf_system) 3 m_app (flags 0 0 []) w_src).
Proof.
  split; [reflexivity|].
  apply (quiet_flag_noninterference (SYS := deaf_system)
           (fun _ _ _ => eq_refl) 3 m_app (flags 0 0 []) w_src 1 0).
Defined.

(** C5 as stated fails: [t] is older than [a] and than [b], but its
    command refreshes it, so only the first verdict is "newer" and the
    command is run once, not twice. *)
Lemma refreshed_target_runs_once :
  check_file "t" "a" m_touch p_old = Ret true p_old
  /\ check_file "t" "b" m_touch p_old = Ret true p_old
  /\ ran (run_makefile 2 m_touch "t" p_old) = [["touch"; "t"]]
  /\ option_map trace (final (run_makefile 2 m_touch "t" p_old))
     = Some [EvCheck "t" "a" true; EvRun ["touch"; "t"] (Terminated 0);
             EvCheck "t" "b" false].
Proof. repeat split. Qed.

(** C5 at work: [t] is older than [a] and than [b], and its command
    [false] leaves it so: two verdicts "newer", two runs.  With [t] newer
    than [a] and older than [b] there is one verdict "newer", the second,
    and one run. *)
Lemma two_newer_two_runs :
  makefile_rule m_t "t" = Some r_t
  /\ rule_prereq r_t = Some ["a"; "b"]
  /\ arg_b (args p_old) <> 1
  /\ ran (run_makefile 2 m_t "t" p_old) = [["false"]; ["false"]]
  /\ (exists q evs,
       run_makefile 2 m_t "t" p_old = Ret tt q
       /\ stale_pass m_t "t" r_t ["a"; "b"] p_old 2 q
       /\ trace q = (trace p_old ++ evs)%list
       /\ stale_trace "t" ["false"] ["a"; "b"] evs
       /\ checked evs = ["a"; "b"]
       /\ stale_count evs = 2%nat
       /\ commands evs = [["false"]; ["false"]])
  /\ (exists q,
       check_prereqs m_t "t" r_t ["a"; "b"] p_mixed = Ret tt q
       /\ stale_pass m_t "t" r_t ["a"; "b"] p_mixed 1 q
       /\ trace q = [EvCheck "t" "a" false; EvCheck "t" "b" true;
                     EvRun ["false"] (Terminated 256)]).
Proof.
  assert (Hb : arg_b (args p_old) <> 1) by discriminate.
  destruct (check_prereqs_once_per_stale (PR := parser) (SYS := system)
              1 m_t "t" r_t ["a"; "b"] p_old
              eq_refl eq_refl Hb) as (Hvisit & Hloop & Hshape & Hall).
  destruct (Hall (fun _ _ => conj (ex_intro _ 256 eq_refl)
                                  (fun _ => conj eq_refl eq_refl))
                 p_old eq_refl) as (q & Hrun & Hpass & _).
  { intros pre [<-|[<-|[]]]; split; reflexivity. }
  destruct (Hshape _ _ _ Hpass) as (evs & Htr & Hs & Hchk & Hcnt & Hcmds).
  eassert (Hmixed : check_prereqs m_t "t" r_t ["a"; "b"] p_mixed = Ret tt _)
    by (cbv; reflexivity).
  split; [reflexivity|]. split; [reflexivity|]. split; [exact Hb|].
  split; [reflexivity|]. split.
  - exists q, evs.
    split; [rewrite (Hvisit p_old eq_refl); exact Hrun|].
    split; [exact Hpass|]. split; [exact Htr|]. split; [exact Hs|].
    split; [exact Hchk|]. split; [exact Hcnt|exact Hcmds].
  - eexists. split; [exact Hmixed|]. split; [|reflexivity].
    destruct (proj1 (Hloop _ _) Hmixed) as (k & Hk).
    destruct (Hshape _ _ _ Hk) as (evs' & Htr' & _ & _ & Hcnt' & _).
    simpl in Htr'. subst evs'. simpl in Hcnt'. now subst k.
Defined.

(** ** More runs *)

Example app_is_up_to_date : up_to_date m_app w_built.
Proof.
  intros name r Hr.
  cbn [makefile_rule parser lookup m_app find Demo.name] in Hr.
  destruct (String.eqb_spec "app" name) as [<-|_].
  - injection Hr as <-. exists ["app.o"]. split; [reflexivity|].
    intros pre [<-|[]]. repeat split. cbv. discriminate.
  - destruct (String.eqb_spec "app.o" name) as [<-|_]; [|discriminate].
    injection Hr as <-. exists ["app.c"]. split; [reflexivity|].
    intros pre [<-|[]]. repeat split. cbv. discriminate.
Qed.

Example loop_is_cyclic : cyclic m_loop on_loop.
Proof.
  intros name [->| ->].
  - exists r_ping, ["pong"], "pong". repeat split; [now left|now right].
  - exists r_pong, ["ping"], "ping". repeat split; [now left|now left].
Qed.

(** X1 at work: a build from scratch changes the world, but not the
    flags, and only adds to the streams. *)
Lemma scratch_build_extends :
  exists q,
    final (run_makefile 3 m_app "app" p_src) = Some q
    /\ extends p_src q
    /\ ran (run_makefile 3 m_app "app" p_src)
       = [["touch"; "app.o"]; ["touch"; "app"]].
Proof.
  eassert (Hfin : final (run_makefile 3 m_app "app" p_src) = Some _)
    by (cbv; reflexivity).
  eexists. split; [exact Hfin|]. split; [|reflexivity].
  exact (build_leaves_alone (PR := parser) (SYS := system)
           3 m_app "app" p_src _ Hfin).
Defined.


(** X3 at work: [ping] needs [pong] and [pong] needs [ping]. *)
Lemma ping_pong_overflows :
  on_loop "ping"
  /\ (run_makefile 7 m_loop "ping" p_src = Overflow
      \/ exists code q, run_makefile 7 m_loop "ping" p_src = Exit code q)
  /\ run_makefile 7 m_loop "ping" p_src = Overflow.
Proof.
  split; [now left|]. split; [|reflexivity].
  exact (cyclic_build_never_returns (PR := parser) (SYS := system)
           m_loop on_loop 7 "ping" p_src loop_is_cyclic (or_introl eq_refl)).
Defined.

(** X4 at work: everything is up to date, and everything is run. *)
Lemma forced_build_of_app :
  arg_b (args (started (flags 1 0 []) w_built)) = 1
  /\ plan 3 m_app "app" = [["touch"; "app.o"]; ["touch"; "app"]]
  /\ exists q,
       run_makefile 3 m_app "app" (started (flags 1 0 []) w_built) = Ret tt q
       /\ commands (trace q) = plan 3 m_app "app".
Proof.
  split; [reflexivity|]. split; [reflexivity|].
  eassert (Hrun : run_makefile 3 m_app "app" (started (flags 1 0 []) w_built)
                  = Ret tt _) by (cbv; reflexivity).
  eexists. split; [exact Hrun|].
  exact (forced_build_runs_the_plan (PR := parser) (SYS := system)
           3 m_app "app" (started (flags 1 0 []) w_built) _ eq_refl Hrun).
Defined.

(** X5 at work: [gone] is no file and has no rule; under the force flag
    the target is built all the same.  A forced build that ends by [exit]:
    [fork] fails with [EAGAIN], and the exit code is the [EINVAL] that
    [perror] left in [errno]. *)
Lemma forced_build_misses_nothing :
  arg_b (args p_forced) = 1
  /\ access (sys p_forced) "gone" = false
  /\ makefile_rule m_needs "gone" = None
  /\ ran (run_makefile 3 m_needs "t" p_forced) = [["true"]]
  /\ (exists q,
       run_makefile 3 m_needs "t" p_forced = Ret tt q
       /\ checked (trace q) = checked (trace p_forced))
  /\ (exists q,
       run_makefile 3 m_nofork "nofork" p_forced = Exit EINVAL q
       /\ trace q = [EvRun ["forkfail"] (ForkFailed EAGAIN)]
       /\ spawn_failed EINVAL q).
Proof.
  split; [reflexivity|]. split; [reflexivity|]. split; [reflexivity|].
  split; [reflexivity|].
  eassert (Hrun : run_makefile 3 m_needs "t" p_forced = Ret tt _)
    by (cbv; reflexivity).
  eassert (Hexit : run_makefile 3 m_nofork "nofork" p_forced = Exit EINVAL _)
    by (cbv; reflexivity).
  split.
  - eexists. split; [exact Hrun|].
    apply (forced_build_asks_no_oracle (PR := parser) (SYS := system)
             3 m_needs "t" p_forced _ eq_refl).
    now rewrite Hrun.
  - eexists. split; [exact Hexit|]. split; [reflexivity|].
    apply (forced_build_asks_no_oracle (PR := parser) (SYS := system)
             3 m_nofork "nofork" p_forced _ eq_refl);
      [now rewrite Hexit|exact Hexit].
Defined.

(** X6 at work. *)
Lemma stdout_of_scratch_build :
  arg_s (flags 0 0 []) <> 1
  /\ exists q,
       final (main 3 m_app (flags 0 0 []) w_src) = Some q
       /\ text (out q)
          = ("touch app.o" ++ nl ++ "touch app" ++ nl)%string.
Proof.
  assert (Hs : arg_s (flags 0 0 []) <> 1) by discriminate.
  split; [exact Hs|].
  eassert (Hfin : final (main 3 m_app (flags 0 0 []) w_src) = Some _)
    by (cbv; reflexivity).
  eexists. split; [exact Hfin|].
  destruct (stdout_is_the_commands (PR := parser) (SYS := system)
              3 m_app (flags 0 0 []) w_src _ Hfin) as [H _].
  rewrite (H Hs). reflexivity.
Defined.

(** X7 at work. *)
Lemma built_app_is_left_alone :
  arg_b (args p_built) <> 1
  /\ (run_makefile 3 m_app "app" p_built = Overflow
      \/ exists q, run_makefile 3 m_app "app" p_built = Ret tt q
                   /\ idle p_built q)
  /\ ran (run_makefile 3 m_app "app" p_built) = [].
Proof.
  assert (Hb : arg_b (args p_built) <> 1) by discriminate.
  split; [exact Hb|]. split; [|reflexivity].
  exact (up_to_date_build_runs_nothing (PR := parser) (SYS := system)
           3 m_app "app" p_built app_is_up_to_date Hb).
Defined.

(** X8 at work: [t] is older than [b]. *)
Lemma old_target_is_rebuilt :
  stale (sys p_old) "t" "b"
  /\ exists q evs,
       final (check_prereqs m_touch "t" r_touch ["a"; "b"] p_old) = Some q
       /\ trace q = (trace p_old ++ evs)%list
       /\ In ["touch"; "t"] (commands evs).
Proof.
  assert (Hst : stale (sys p_old) "t" "b") by (right; reflexivity).
  split; [exact Hst|].
  apply (stale_target_is_rebuilt (PR := parser) (SYS := system)
           m_touch "t" r_touch ["a"; "b"] p_old).
  - intros pre [<-|[<-|[]]]; reflexivity.
  - exists "b". split; [right; now left|exact Hst].
Defined.

(** X9 at work: the three ways, one run each. *)
Lemma three_ways_to_end :
  (exists q, main 3 m_two (flags 0 0 ["first"]) w_src = Exit 2 q
             /\ main_targets 3 m_two (started (flags 0 0 ["first"]) w_src)
                = Ret tt q)
  /\ (exists q, main 3 m_needs (flags 0 0 []) w_tie = Exit 1 q
                /\ main_targets 3 m_needs (started (flags 0 0 []) w_tie)
                   = Exit 1 q
                /\ no_rule_reported m_needs q)
  /\ (exists q, main 3 m_nofork (flags 0 0 []) w_src = Exit EINVAL q
                /\ main_targets 3 m_nofork (started (flags 0 0 []) w_src)
                   = Exit EINVAL q
                /\ spawn_failed EINVAL q).
Proof.
  split; [|split].
  - eassert (H : main 3 m_two (flags 0 0 ["first"]) w_src = Exit 2 _)
      by (cbv; reflexivity).
    eexists. split; [exact H|].
    destruct (main_exit_statuses (PR := parser) (SYS := system)
                3 m_two (flags 0 0 ["first"]) w_src _ _ eq_refl H)
      as [[[Hrun _]|[(_ & Hc & _)|[Hf _]]] _].
    + exact Hrun.
    + discriminate Hc.
    + discriminate Hf.
  - eassert (H : main 3 m_needs (flags 0 0 []) w_tie = Exit 1 _)
      by (cbv; reflexivity).
    eexists. split; [exact H|].
    destruct (main_exit_statuses (PR := parser) (SYS := system)
                3 m_needs (flags 0 0 []) w_tie _ _ eq_refl H)
      as [[[Hrun _]|[(Hrun & _ & Hno & _)|[Hrun Hf]]] _].
    + discriminate Hrun.
    + split; [exact Hrun|exact Hno].
    + exfalso. destruct Hf as (tr & argv & e & [Ht|Ht] & _);
        simpl in Ht; destruct tr; discriminate Ht.
  - eassert (H : main 3 m_nofork (flags 0 0 []) w_src = Exit EINVAL _)
      by (cbv; reflexivity).
    eexists. split; [exact H|].
    destruct (main_exit_statuses (PR := parser) (SYS := system)
                3 m_nofork (flags 0 0 []) w_src _ _ eq_refl H)
      as [[[Hrun _]|[(_ & Hc & _)|[Hrun Hf]]] _].
    + discriminate Hrun.
    + discriminate Hc.
    + split; [exact Hrun|exact Hf].
Defined.

(** X10 at work: [mmake -B -f two.mk second first]. *)
Lemma two_operands_are_stored :
  has_flag "?" [opt "B"; opt_f "two.mk"] = false
  /\ exists s slots,
       check_start_args (fun _ => None) [opt "B"; opt_f "two.mk"] 4
                        argv_two 0 init_struct init_slots
       = Ready s slots
       /\ until_null slots = Some ["second"; "first"]
       /\ c_tar s = 2
       /\ arg_b s = 1
       /\ arg_s s = 0
       /\ makefile_file s = Some "two.mk"
       /\ exitcode s = 0.
Proof.
  split; [reflexivity|].
  apply (operands_become_targets (fun _ => None)
           [opt "B"; opt_f "two.mk"] 4 argv_two 0).
  - reflexivity.
  - reflexivity.
  - simpl. lia.
  - simpl. lia.
  - simpl. lia.
  - intros arg [<-|[<-|[]]]; reflexivity.
Defined.

(** X11 at work: fifty operands. *)
Lemma fifty_operands_fill_the_array :
  Z.of_nat (List.length argv_fifty) = 51
  /\ (exists s,
        check_start_args (fun _ => None) [] 1 argv_fifty 0
                         init_struct init_slots
        = Ready s (map Some (repeat "t" 50))
        /\ c_tar s = 50
        /\ until_null (map Some (repeat "t" 50)) = None)
  /\ mmake 3 (fun _ => None) [] 1 argv_fifty 0 w_dir = None.
Proof.
  split; [reflexivity|]. split; [|reflexivity].
  apply (full_array_has_no_end (fun _ => None) [] argv_fifty 0).
  - reflexivity.
  - reflexivity.
  - reflexivity.
  - intros arg Hin. apply repeat_spec in Hin. subst arg. reflexivity.
Defined.


(** X13 at work: the default makefile, a makefile that is not there
    ([fopen] fails with [ENOENT], [perror] reports it and leaves [EINVAL],
    the exit code), and one that cannot be parsed. *)
Lemma makefiles_of_the_directory :
  main_from 3 (flags 0 0 []) w_dir = main 3 m_app (flags 0 0 []) w_dir
  /\ fopen w_dir "none.mk" = inl ENOENT
  /\ exit_code (main_from 3 (set_makefile_file (Some "none.mk") (flags 0 1 []))
                          w_dir)
     = Some EINVAL
  /\ option_map (fun q => text (err q))
       (final (main_from 3 (set_makefile_file (Some "none.mk") (flags 0 1 []))
                         w_dir))
     = Some ("none.mk:" ++ error_text ENOENT ++ nl)
  /\ (exists q,
        main_from 3 (set_makefile_file (Some "broken.mk") (flags 0 1 [])) w_dir
        = Exit EXIT_FAILURE q
        /\ err q = ["broken.mk: Could not parse makefile"]).
Proof.
  destruct (makefile_is_loaded_first (PR := parser) (SYS := system)
              (LD := loader) 3 (flags 0 0 []) w_dir) as (H1 & _ & _).
  destruct (makefile_is_loaded_first (PR := parser) (SYS := system)
              (LD := loader) 3
              (set_makefile_file (Some "none.mk") (flags 0 1 [])) w_dir)
    as (_ & H2 & _).
  destruct (makefile_is_loaded_first (PR := parser) (SYS := system)
              (LD := loader) 3
              (set_makefile_file (Some "broken.mk") (flags 0 1 [])) w_dir)
    as (_ & _ & H3).
  split; [apply (H1 "mmakefile" m_app); reflexivity|].
  split; [reflexivity|].
  destruct (H2 ENOENT eq_refl) as (q & Hq & _ & _ & _ & He).
  rewrite Hq. simpl final. simpl option_map. rewrite He.
  split; [reflexivity|]. split; [reflexivity|].
  destruct (H3 "broken.mk" eq_refl eq_refl) as (q3 & Hq3 & _ & _ & _ & He3).
    exists q3. split; [exact Hq3|exact He3].
Defined.

(** X14 at work: [mmake -B -f two.mk second first] in that directory. *)
Lemma command_line_of_two :
  exists sa,
    mmake 3 (fun _ => None) [opt "B"; opt_f "two.mk"] 4 argv_two 0 w_dir
    = Some (main 3 m_two sa w_dir)
    /\ target sa = ["second"; "first"]
    /\ c_tar sa = 2
    /\ arg_b sa = 1
    /\ arg_s sa = 0
    /\ exitcode sa = 0.
Proof.
  destruct (command_line_to_main (PR := parser) (SYS := system)
              (LD := loader) 3 (fun _ => None)
              [opt "B"; opt_f "two.mk"] 4 argv_two 0
              w_dir "two.mk" m_two)
    as (sa & H1 & H2 & H3 & H4 & H5 & H6).
  - reflexivity.
  - reflexivity.
  - simpl. lia.
  - simpl. lia.
  - simpl. lia.
  - intros arg [<-|[<-|[]]]; reflexivity.
  - reflexivity.
  - reflexivity.
  - exists sa. split; [exact H1|]. split; [exact H2|].
    split; [rewrite H3, H2; reflexivity|]. now repeat split.
Defined.

End Runs.
